(** * Gabor orientation game (gabor_streamlit.py)

    A shallow embedding of the computational core of the game and of its
    answer handler:

    - [calculate_contrast] and [generate_gabor] over exact real numbers
      (the formulas the program evaluates, with numpy's array operations
      written out on lists of rows);
    - [Binary64.calculate_contrast], the same contrast formula evaluated in
      IEEE 754 binary64, the arithmetic Python floats really use;
    - the session state and [check_answer], [generate_new_patch] and
      [reset_game] as a small state-and-exception monad;
    - the script itself, one run at a time ([script_run]), with the
      reruns a click sets off ([interact]) and the sidebar's difficulty
      label ([difficulty]). *)

From Stdlib Require Import Reals Lra Lia ZArith List String Floats.
From stdpp Require Import gmap.
Import ListNotations.

Set Warnings "-inexact-float".

(** ** Game and contrast parameters *)

Definition CPD_OPTIONS : list Z := [3; 6; 12; 18]%Z.
Definition ORIENTATION_OPTIONS : list Z := [0; 45; 90]%Z.

Definition ORIENTATION_NAMES : gmap Z string :=
  {[ 0%Z := "Horizontal (→)"%string;
     45%Z := "Diagonal (↗)"%string;
     90%Z := "Vertical (↑)"%string ]}.

Definition INITIAL_CONTRAST : R := 0.5.
Definition MIN_CONTRAST : R := 0.0.
Definition CONTRAST_DECAY_RATE : R := 0.15.

(** ** The contrast formula, in exact arithmetic

    [max(MIN_CONTRAST, INITIAL_CONTRAST * ((1 - CONTRAST_DECAY_RATE) ** score))]
    with the integer power read as [powerRZ] and [max] as [Rmax]. *)

Definition calculate_contrast (score : Z) : R :=
  Rmax MIN_CONTRAST
       (INITIAL_CONTRAST * powerRZ (1 - CONTRAST_DECAY_RATE) score).

(** ** The numpy operations used by [generate_gabor]

    One-dimensional arrays are lists, two-dimensional arrays are lists of
    rows.  All arrays the program combines have the same shape, so the
    element-wise operations are [zip_with] (no broadcasting between arrays
    is needed; a scalar operand is applied to every element with [amap]). *)

Module Np.

Abbreviation array1 := (list R).
Abbreviation array2 := (list (list R)).

(** [np.linspace(start, stop, num)]: [arange(0, num) * step + start] with
    [step = (stop - start) / (num - 1)].  (numpy then stores [stop] in the
    last cell, which is the value the formula already has there.) *)
Definition linspace (start stop : R) (num : nat) : array1 :=
  let step := ((stop - start) / INR (num - 1))%R in
  map (fun k => (INR k * step + start)%R) (seq 0 num).

(** [np.meshgrid(x, y)]: [X[i][j] = x[j]] and [Y[i][j] = y[i]]. *)
Definition meshgrid (x y : array1) : array2 * array2 :=
  (map (fun _ => x) y, map (fun yi => map (fun _ => yi) x) y).

(** [np.deg2rad]. *)
Definition deg2rad (d : R) : R := (d * (PI / 180))%R.

(** A function applied to every element, and a binary operation applied
    element by element. *)
Definition amap (f : R -> R) (A : array2) : array2 := map (map f) A.
Definition amap2 (f : R -> R -> R) (A B : array2) : array2 :=
  zip_with (zip_with f) A B.

Definition add (A B : array2) : array2 := amap2 Rplus A B.
Definition mul (A B : array2) : array2 := amap2 Rmult A B.
Definition scale (c : R) (A : array2) : array2 := amap (Rmult c) A.
Definition scale_r (A : array2) (c : R) : array2 := amap (fun a => a * c)%R A.
Definition shift (c : R) (A : array2) : array2 := amap (Rplus c) A.
Definition div_r (A : array2) (c : R) : array2 := amap (fun a => a / c)%R A.
Definition neg (A : array2) : array2 := amap Ropp A.
Definition square (A : array2) : array2 := amap (fun a => a ^ 2)%R A.
Definition sin (A : array2) : array2 := amap Rtrigo_def.sin A.
Definition exp (A : array2) : array2 := amap Rtrigo_def.exp A.

(** The sample in row [i], column [j]. *)
Definition sample (A : array2) (i j : nat) : option R :=
  A !! i ≫= fun row => row !! j.

End Np.

(** ** The Gabor patch

    The local variables of [generate_gabor] in source order.  [X] and [Y]
    are the two components of [np.meshgrid(x, y)]; [sine_grating] and
    [gaussian] are kept as definitions of their own because the patch is
    their product. *)

Module Gabor.

Definition size_pixels : nat := 512.
Definition size_degrees : R := 8.
Definition sigma_degrees : R := 1.2.

Definition x : Np.array1 :=
  Np.linspace (- size_degrees / 2) (size_degrees / 2) size_pixels.
Definition y : Np.array1 :=
  Np.linspace (- size_degrees / 2) (size_degrees / 2) size_pixels.
Definition X : Np.array2 := fst (Np.meshgrid x y).
Definition Y : Np.array2 := snd (Np.meshgrid x y).

Definition theta (orientation_deg : R) : R :=
  Np.deg2rad (orientation_deg + 90).

Definition frequency (cpd : R) : R := (2 * PI * cpd)%R.

Definition sine_grating (cpd orientation_deg : R) : Np.array2 :=
  Np.sin (Np.scale (frequency cpd)
            (Np.add (Np.scale_r X (cos (theta orientation_deg)))
                    (Np.scale_r Y (sin (theta orientation_deg))))).

Definition gaussian : Np.array2 :=
  Np.exp (Np.div_r (Np.neg (Np.add (Np.square X) (Np.square Y)))
                   (2 * sigma_degrees ^ 2)).

End Gabor.

Definition generate_gabor (cpd orientation_deg contrast : R) : Np.array2 :=
  Np.shift 0.5
    (Np.mul (Np.scale contrast (Gabor.sine_grating cpd orientation_deg))
            Gabor.gaussian).

(** Line 58 as a function of the two trigonometric factors it multiplies
    the grids by.  In binary64 [np.cos(np.deg2rad(90))] and
    [np.sin(np.deg2rad(180))] are not 0 but about 6.1e-17 and 1.2e-16; the
    grating computed for orientations 0 and 90 is [sine_grating_from] at
    such factors. *)


(** ** The patch as the specification words it

    The grid: 512 linearly spaced coordinates spanning 8 degrees, centred
    at the origin; the luminance formula; and the array of its values, row
    [i] holding the points with ordinate [grid_coordinate i]. *)

Definition grid_coordinate (k : nat) : R := (-4 + INR k * (8 / 511))%R.

Definition luminance (spatialFrequency orientationDegrees contrast : R)
    (px py : R) : R :=
  let th := ((orientationDegrees + 90) * PI / 180)%R in
  (0.5 + contrast
         * sin (2 * PI * spatialFrequency * (px * cos th + py * sin th))
         * exp (- (px ^ 2 + py ^ 2) / (2 * 1.2 ^ 2)))%R.

Definition luminance_field (spatialFrequency orientationDegrees contrast : R)
    : list (list R) :=
  map (fun i =>
         map (fun j =>
                luminance spatialFrequency orientationDegrees contrast
                          (grid_coordinate j) (grid_coordinate i))
             (seq 0 512))
      (seq 0 512).

(** ** The contrast formula in binary64

    Python floats are IEEE 754 binary64 numbers.  [x ** n] with a float
    [x] and a non-negative int [n] is the C library's [pow]; it is modelled
    as the exact power rounded to nearest-even, which is what a correctly
    rounded [pow] returns.  Python's [max(a, b)] keeps [a] unless [b > a].
    The score is a count of correct answers, hence a natural number (the
    model is meant for scores below 2^53, which convert to a float without
    rounding). *)

Module Binary64.

Definition INITIAL_CONTRAST : float := 0.5%float.
Definition MIN_CONTRAST : float := 0.0%float.
Definition CONTRAST_DECAY_RATE : float := 0.15%float.

Definition float_pow (b : float) (n : N) : float :=
  match n with
  | N0 => 1%float
  | Npos p =>
      let odd := N.odd n in
      match Prim2SF b with
      | S754_finite s m e =>
          SF2Prim (binary_round prec emax (s && odd) (m ^ p) (e * Z.pos p))
      | S754_zero s => SF2Prim (S754_zero (s && odd))
      | S754_infinity s => SF2Prim (S754_infinity (s && odd))
      | S754_nan => nan
      end
  end.

Definition py_max (a b : float) : float :=
  if PrimFloat.ltb a b then b else a.

Definition calculate_contrast (score : N) : float :=
  py_max MIN_CONTRAST
         (INITIAL_CONTRAST * float_pow (1 - CONTRAST_DECAY_RATE) score)%float.

End Binary64.

(** The 53 leading bits of a positive integer of at least 53 bits: its
    binary64 significand before rounding. *)

Definition top53 (p : positive) : Z :=
  (Z.pos p / 2 ^ (Z.pos (digits2_pos p) - 53))%Z.

(** ** The session state and the event handlers

    [st.session_state] is a record; a handler is a function from the state
    to an outcome and the state it leaves behind, so that what a handler
    wrote before an exception stays written, as in Python.  The only
    exception the handlers can raise is the [KeyError] of the dictionary
    lookup [ORIENTATION_NAMES[...]].  The values [np.random.choice] draws
    are arguments of [generate_new_patch]. *)

Record session_state : Type := {
  score : Z;
  current_orientation : option Z;
  current_cpd : option Z;
  feedback : string;
  feedback_color : string;
  show_feedback : bool
}.

Definition initial_session : session_state :=
  {| score := 0; current_orientation := None; current_cpd := None;
     feedback := ""; feedback_color := "blue"; show_feedback := false |}.

Definition set_score (v : Z) (s : session_state) : session_state :=
  {| score := v; current_orientation := current_orientation s;
     current_cpd := current_cpd s; feedback := feedback s;
     feedback_color := feedback_color s; show_feedback := show_feedback s |}.
Definition set_current_orientation (v : option Z) (s : session_state)
    : session_state :=
  {| score := score s; current_orientation := v;
     current_cpd := current_cpd s; feedback := feedback s;
     feedback_color := feedback_color s; show_feedback := show_feedback s |}.
Definition set_current_cpd (v : option Z) (s : session_state)
    : session_state :=
  {| score := score s; current_orientation := current_orientation s;
     current_cpd := v; feedback := feedback s;
     feedback_color := feedback_color s; show_feedback := show_feedback s |}.
Definition set_feedback (v : string) (s : session_state) : session_state :=
  {| score := score s; current_orientation := current_orientation s;
     current_cpd := current_cpd s; feedback := v;
     feedback_color := feedback_color s; show_feedback := show_feedback s |}.
Definition set_feedback_color (v : string) (s : session_state)
    : session_state :=
  {| score := score s; current_orientation := current_orientation s;
     current_cpd := current_cpd s; feedback := feedback s;
     feedback_color := v; show_feedback := show_feedback s |}.
Definition set_show_feedback (v : bool) (s : session_state) : session_state :=
  {| score := score s; current_orientation := current_orientation s;
     current_cpd := current_cpd s; feedback := feedback s;
     feedback_color := feedback_color s; show_feedback := v |}.

Inductive exn : Type := KeyError.

Inductive outcome (A : Type) : Type :=
| Returned (a : A)
| Raised (e : exn).
Arguments Returned {A} a.
Arguments Raised {A} e.

Definition handler (A : Type) : Type :=
  session_state -> outcome A * session_state.

Definition ret {A} (a : A) : handler A := fun s => (Returned a, s).
Definition raise {A} (e : exn) : handler A := fun s => (Raised e, s).
Definition bind {A B} (c : handler A) (k : A -> handler B) : handler B :=
  fun s =>
    match c s with
    | (Returned a, s') => k a s'
    | (Raised e, s') => (Raised e, s')
    end.
Definition read {A} (field : session_state -> A) : handler A :=
  fun s => (Returned (field s), s).
Definition write (update : session_state -> session_state) : handler unit :=
  fun s => (Returned tt, update s).

Declare Scope handler_scope.
Delimit Scope handler_scope with handler.
Notation "v <- c ;; k" := (bind c (fun v => k))
  (at level 100, c at next level, right associativity) : handler_scope.
Notation "c ;; k" := (bind c (fun _ => k))
  (at level 100, right associativity) : handler_scope.

(** [ORIENTATION_NAMES[key]], where the key may be [None]. *)
Definition orientation_name (key : option Z) : handler string :=
  match key ≫= fun k => ORIENTATION_NAMES !! k with
  | Some name => ret name
  | None => raise KeyError
  end.

(** [guessed_orientation == st.session_state.current_orientation]: an int
    never equals [None]. *)
Definition orientation_eq (guessed : Z) (current : option Z) : bool :=
  match current with
  | Some o => Z.eqb guessed o
  | None => false
  end.

Definition generate_new_patch (drawn_cpd drawn_orientation : Z)
    : handler unit :=
  (write (set_current_cpd (Some drawn_cpd)) ;;
   write (set_current_orientation (Some drawn_orientation)) ;;
   write (set_feedback "") ;;
   write (set_show_feedback false))%handler.

Definition check_answer (guessed_orientation : Z) : handler unit :=
  (showing <- read show_feedback ;;
   if showing then ret tt
   else
     current <- read current_orientation ;;
     (if orientation_eq guessed_orientation current then
        old <- read score ;;
        write (set_score (old + 1)) ;;
        write (set_feedback "✓ Correct!") ;;
        write (set_feedback_color "green")
      else
        correct_name <- orientation_name current ;;
        write (set_feedback ("✗ Wrong! It was " ++ correct_name)) ;;
        write (set_feedback_color "red")) ;;
     write (set_show_feedback true))%handler.

Definition reset_game (drawn_cpd drawn_orientation : Z) : handler unit :=
  (write (set_score 0) ;;
   write (set_feedback "") ;;
   generate_new_patch drawn_cpd drawn_orientation)%handler.

(** ** What the script renders

    Lines 119 and 145-149 of the script: the contrast for the current score
    and the patch for the current trial.  Before a trial is drawn the two
    trial fields are [None] and there is nothing to render. *)

Definition rendered_patch (s : session_state) : option (list (list R)) :=
  cpd ← current_cpd s;
  orientation ← current_orientation s;
  Some (generate_gabor (IZR cpd) (IZR orientation)
          (calculate_contrast (score s))).

(** A luminance that [imshow(..., vmin=0, vmax=1)] displays unclipped. *)
Definition in_unit_range (v : R) : Prop := (0 <= v <= 1)%R.

(** The array whose sample in row [i], column [j] is [F i j]. *)
Definition table (n : nat) (F : nat -> nat -> R) : list (list R) :=
  map (fun i => map (fun j => F i j) (seq 0 n)) (seq 0 n).

(** Two sessions used as examples: a trial awaiting its answer at score
    4, and the same trial once a correct answer has been acknowledged. *)
Definition presenting_session : session_state :=
  {| score := 4; current_orientation := Some 45%Z; current_cpd := Some 6%Z;
     feedback := ""; feedback_color := "red"; show_feedback := false |}.

Definition feedback_session : session_state :=
  {| score := 5; current_orientation := Some 45%Z; current_cpd := Some 6%Z;
     feedback := "✓ Correct!"; feedback_color := "green";
     show_feedback := true |}.

(** ** The sidebar's difficulty label (lines 201-211) *)

Definition difficulty (current_contrast : R) : string :=
  if Rgt_dec current_contrast 0.5 then "Easy 😊"
  else if Rgt_dec current_contrast 0.2 then "Medium 😐"
  else if Rgt_dec current_contrast 0.05 then "Hard 😰"
  else if Rgt_dec current_contrast 0.01 then "Very Hard 🤯"
  else "Extreme! 💀".

(** ** One run of the script

    Streamlit runs the script from top to bottom after each interaction.
    [st.button] is true only in the run its click triggers; [st.rerun()]
    stops the run at once and queues another, in which no button is
    clicked; an uncaught exception ends the run.  The session state
    survives in all three cases.  [np.random.choice] is a stream of draws
    [draw k = (cpd, orientation)] read with a counter. *)

Inductive button : Type :=
| ResetButton | HorizontalButton | VerticalButton | DiagonalButton.

(** The orientation an answer button passes to [check_answer]. *)
Definition button_orientation (b : button) : option Z :=
  match b with
  | ResetButton => None
  | HorizontalButton => Some 0%Z
  | VerticalButton => Some 90%Z
  | DiagonalButton => Some 45%Z
  end.

(** What a completed run has put on the page. *)
Record page : Type := {
  page_score : Z;
  page_contrast : R;
  page_patch : list (list R);
  page_difficulty : string
}.

Inductive script_error : Type :=
| HandlerError (e : exn)
| TypeError.

Inductive run_result : Type :=
| Completed (p : page)
| Rerun
| Failed (e : script_error).

(** [if st.session_state.feedback:], the truth value of a string. *)
Definition nonempty (t : string) : bool :=
  match t with
  | EmptyString => false
  | String _ _ => true
  end.

Definition script_run (draw : nat -> Z * Z) (clicked : option button)
    (s0 : session_state) (k0 : nat) : run_result * session_state * nat :=
  (* lines 99-101 *)
  let '(s1, k1) :=
    match current_orientation s0 with
    | None =>
        (snd (generate_new_patch (fst (draw k0)) (snd (draw k0)) s0), S k0)
    | Some _ => (s0, k0)
    end in
  (* line 119 *)
  let current_contrast := calculate_contrast (score s1) in
  match clicked with
  | Some ResetButton =>
      (* lines 126-128 *)
      (Rerun, snd (reset_game (fst (draw k1)) (snd (draw k1)) s1), S k1)
  | _ =>
      if show_feedback s1 then
        (* lines 131-139 *)
        (Rerun,
         snd (generate_new_patch (fst (draw k1)) (snd (draw k1)) s1), S k1)
      else
        (* lines 140-142 *)
        let s2 := if nonempty (feedback s1) then set_feedback "" s1 else s1 in
        (* lines 145-149 *)
        match current_cpd s2, current_orientation s2 with
        | Some cpd, Some orientation =>
            let gabor :=
              generate_gabor (IZR cpd) (IZR orientation) current_contrast in
            (* lines 165-177 *)
            match clicked ≫= button_orientation with
            | Some guessed =>
                match check_answer guessed s2 with
                | (Returned _, s3) => (Rerun, s3, k1)
                | (Raised e, s3) => (Failed (HandlerError e), s3, k1)
                end
            | None =>
                (* lines 180-213 *)
                (Completed {| page_score := score s2;
                              page_contrast := current_contrast;
                              page_patch := gabor;
                              page_difficulty := difficulty current_contrast |},
                 s2, k1)
            end
        | _, _ => (Failed TypeError, s2, k1)
        end
  end.

(** An interaction: the run the click triggers and the reruns it queues,
    at most [fuel] runs in all. *)
Fixpoint interact (fuel : nat) (draw : nat -> Z * Z) (clicked : option button)
    (s : session_state) (k : nat) : run_result * session_state * nat :=
  match fuel with
  | O => (Rerun, s, k)
  | S fuel' =>
      match script_run draw clicked s k with
      | (Rerun, s', k') => interact fuel' draw None s' k'
      | finished => finished
      end
  end.

(** A sequence of clicks, each followed to its completed page; [None] if
    an interaction fails or is still rerunning after three runs. *)
Fixpoint play (draw : nat -> Z * Z) (clicks : list button)
    (s : session_state) (k : nat) : option (session_state * nat) :=
  match clicks with
  | [] => Some (s, k)
  | b :: rest =>
      match interact 3 draw (Some b) s k with
      | (Completed _, s', k') => play draw rest s' k'
      | _ => None
      end
  end.

(** The draws come from the two option lists. *)
Definition valid_draws (draw : nat -> Z * Z) : Prop :=
  forall k, fst (draw k) ∈ CPD_OPTIONS /\ snd (draw k) ∈ ORIENTATION_OPTIONS.

(** A session between interactions: a trial from the option lists is
    awaiting its answer, no feedback is pending, the score is a count. *)
Definition presenting (s : session_state) : Prop :=
  show_feedback s = false
  /\ feedback s = ""%string
  /\ (exists cpd, current_cpd s = Some cpd /\ cpd ∈ CPD_OPTIONS)
  /\ (exists o, current_orientation s = Some o /\ o ∈ ORIENTATION_OPTIONS)
  /\ (0 <= score s)%Z.

(** The answer buttons among a list of clicks. *)
Definition is_answer (b : button) : bool :=
  match button_orientation b with
  | Some _ => true
  | None => false
  end.

Definition answers (clicks : list button) : nat :=
  length (List.filter is_answer clicks).

(** A stream of draws used as an example. *)
Definition example_draw (k : nat) : Z * Z :=
  if Nat.even k then (3, 90)%Z else (12, 0)%Z.

(** Any sequence of runs, each with or without a click, whatever their
    results: the session one run leaves is the one the next starts in. *)
Fixpoint runs (draw : nat -> Z * Z) (clicks : list (option button))
    (s : session_state) (k : nat) : session_state * nat :=
  match clicks with
  | [] => (s, k)
  | clicked :: rest =>
      let '(_, s', k') := script_run draw clicked s k in
      runs draw rest s' k'
  end.

(** What every run keeps: feedback text only while the flag is set, a
    score that is a count, and a trial that is either not drawn yet or
    drawn from the option lists. *)
Definition sound (s : session_state) : Prop :=
  (show_feedback s = false -> feedback s = ""%string)
  /\ (0 <= score s)%Z
  /\ ((current_cpd s = None /\ current_orientation s = None)
      \/ (exists cpd o, current_cpd s = Some cpd
                        /\ current_orientation s = Some o
                        /\ cpd ∈ CPD_OPTIONS /\ o ∈ ORIENTATION_OPTIONS)).

(** * Properties *)

Local Open Scope R_scope.

(** ** Arrays given by a formula in the row and column index *)

Lemma table_ext n F G :
  (forall i j, F i j = G i j) -> table n F = table n G.
Proof.
  intros HFG. unfold table.
  apply map_ext; intros i. apply map_ext; intros j. apply HFG.
Qed.

Lemma amap_table f n F :
  Np.amap f (table n F) = table n (fun i j => f (F i j)).
Proof.
  unfold Np.amap, table. rewrite map_map.
  apply map_ext; intros i. now rewrite map_map.
Qed.

Lemma amap2_table f n F G :
  Np.amap2 f (table n F) (table n G) = table n (fun i j => f (F i j) (G i j)).
Proof.
  unfold Np.amap2, table.
  rewrite zip_with_fmap_l, zip_with_fmap_r, zip_with_diag.
  apply map_ext; intros i.
  now rewrite zip_with_fmap_l, zip_with_fmap_r, zip_with_diag.
Qed.

Lemma lookup_map {A B} (f : A -> B) (l : list A) (i : nat) :
  map f l !! i = f <$> l !! i.
Proof. exact (list_lookup_fmap f l i). Qed.

Lemma sample_table n F i j :
  (i < n)%nat -> (j < n)%nat -> Np.sample (table n F) i j = Some (F i j).
Proof.
  intros Hi Hj. unfold Np.sample, table.
  rewrite lookup_map, lookup_seq_lt by assumption. simpl.
  now rewrite lookup_map, lookup_seq_lt by assumption.
Qed.

Lemma sample_table_Some n F i j v :
  Np.sample (table n F) i j = Some v ->
  (i < n)%nat /\ (j < n)%nat /\ v = F i j.
Proof.
  unfold Np.sample, table. intros H.
  destruct (decide (i < n)%nat) as [Hi|Hi].
  - rewrite lookup_map, lookup_seq_lt in H by assumption. simpl in H.
    destruct (decide (j < n)%nat) as [Hj|Hj].
    + rewrite lookup_map, lookup_seq_lt in H by assumption.
      simpl in H. now inversion H.
    + rewrite lookup_map, lookup_seq_ge in H by lia. discriminate.
  - rewrite lookup_map, lookup_seq_ge in H by lia. discriminate.
Qed.

Lemma table_shape n F :
  length (table n F) = n /\ Forall (fun row => length row = n) (table n F).
Proof.
  unfold table. split.
  - now rewrite length_map, length_seq.
  - apply Forall_forall. intros row Hrow.
    apply list_elem_of_In, in_map_iff in Hrow as (i & <- & _).
    now rewrite length_map, length_seq.
Qed.

(** ** The coordinate grid *)

Lemma INR_size_pixels_pred : INR (Gabor.size_pixels - 1) = 511.
Proof.
  rewrite INR_IZR_INZ.
  change (Z.of_nat (Gabor.size_pixels - 1)) with 511%Z. reflexivity.
Qed.

Lemma x_coordinates :
  Gabor.x = map grid_coordinate (seq 0 Gabor.size_pixels).
Proof.
  unfold Gabor.x, Np.linspace. rewrite INR_size_pixels_pred.
  apply map_ext; intros k.
  unfold grid_coordinate, Gabor.size_degrees. lra.
Qed.

Lemma y_coordinates :
  Gabor.y = map grid_coordinate (seq 0 Gabor.size_pixels).
Proof. exact x_coordinates. Qed.

Lemma X_table :
  Gabor.X = table Gabor.size_pixels (fun _ j => grid_coordinate j).
Proof.
  unfold Gabor.X, Np.meshgrid, table; cbn [fst].
  rewrite y_coordinates, x_coordinates, map_map. reflexivity.
Qed.

Lemma Y_table :
  Gabor.Y = table Gabor.size_pixels (fun i _ => grid_coordinate i).
Proof.
  unfold Gabor.Y, Np.meshgrid, table; cbn [snd].
  rewrite y_coordinates, x_coordinates, map_map.
  apply map_ext; intros i. now rewrite map_map.
Qed.

(** ** The patch, sample by sample *)

Lemma theta_radians o : Gabor.theta o = (o + 90) * PI / 180.
Proof. unfold Gabor.theta, Np.deg2rad. field. Qed.

Lemma sine_grating_table cpd o :
  Gabor.sine_grating cpd o =
  table Gabor.size_pixels (fun i j =>
    sin (Gabor.frequency cpd *
         (grid_coordinate j * cos (Gabor.theta o)
          + grid_coordinate i * sin (Gabor.theta o)))).
Proof.
  unfold Gabor.sine_grating, Np.sin, Np.scale, Np.add, Np.scale_r.
  rewrite X_table, Y_table.
  now rewrite !amap_table, amap2_table, !amap_table.
Qed.

Lemma gaussian_table :
  Gabor.gaussian =
  table Gabor.size_pixels (fun i j =>
    exp (- (grid_coordinate j ^ 2 + grid_coordinate i ^ 2)
         / (2 * Gabor.sigma_degrees ^ 2))).
Proof.
  unfold Gabor.gaussian, Np.exp, Np.div_r, Np.neg, Np.add, Np.square.
  rewrite X_table, Y_table.
  now rewrite !amap_table, amap2_table, !amap_table.
Qed.

Lemma generate_gabor_table cpd o c :
  generate_gabor cpd o c =
  table Gabor.size_pixels (fun i j =>
    luminance cpd o c (grid_coordinate j) (grid_coordinate i)).
Proof.
  unfold generate_gabor, Np.shift, Np.mul, Np.scale.
  rewrite sine_grating_table, gaussian_table.
  rewrite amap_table, amap2_table, amap_table.
  apply table_ext; intros i j.
  unfold luminance, Gabor.frequency, Gabor.sigma_degrees.
  now rewrite theta_radians.
Qed.

Lemma generate_gabor_sample cpd o c i j :
  (i < 512)%nat -> (j < 512)%nat ->
  Np.sample (generate_gabor cpd o c) i j =
  Some (luminance cpd o c (grid_coordinate j) (grid_coordinate i)).
Proof.
  intros Hi Hj. rewrite generate_gabor_table.
  now apply sample_table.
Qed.

Lemma generate_gabor_sample_Some cpd o c i j v :
  Np.sample (generate_gabor cpd o c) i j = Some v ->
  (i < 512)%nat /\ (j < 512)%nat /\
  v = luminance cpd o c (grid_coordinate j) (grid_coordinate i).
Proof.
  rewrite generate_gabor_table. apply sample_table_Some.
Qed.

(** C1.  For every spatial frequency, orientation and contrast,
    [generate_gabor] returns the 512 x 512 array of the values of
    [0.5 + contrast * sin(2 pi f (x cos th + y sin th))
         * exp(-(x^2 + y^2) / (2 * 1.2^2))], [th] being
    [orientation + 90] degrees in radians, at the points of the linearly
    spaced grid spanning 8 degrees around the origin. *)
Theorem generate_gabor_luminance_field :
  forall spatialFrequency orientationDegrees contrast : R,
    generate_gabor spatialFrequency orientationDegrees contrast
      = luminance_field spatialFrequency orientationDegrees contrast
    /\ length (generate_gabor spatialFrequency orientationDegrees contrast)
       = 512%nat
    /\ Forall (fun row => length row = 512%nat)
         (generate_gabor spatialFrequency orientationDegrees contrast)
    /\ grid_coordinate 0 = -4 /\ grid_coordinate 511 = 4.
Proof.
  intros f o c. rewrite generate_gabor_table.
  split; [reflexivity|].
  split; [apply table_shape|].
  split; [apply table_shape|].
  unfold grid_coordinate. split.
  - simpl INR. lra.
  - rewrite INR_IZR_INZ. change (Z.of_nat 511) with 511%Z. lra.
Qed.

(** ** Orientations 0 and 90, and the samples used as probes *)

Lemma INR_num (n : nat) (z : Z) : Z.of_nat n = z -> INR n = IZR z.
Proof. intros <-. apply INR_IZR_INZ. Qed.

Lemma grid_coordinate_0 : grid_coordinate 0 = -4.
Proof. unfold grid_coordinate. rewrite (INR_num 0 0) by reflexivity. lra. Qed.

Lemma grid_coordinate_256 : grid_coordinate 256 = 4 / 511.
Proof.
  unfold grid_coordinate. rewrite (INR_num 256 256) by reflexivity. lra.
Qed.

Lemma grid_coordinate_261 : grid_coordinate 261 = 44 / 511.
Proof.
  unfold grid_coordinate. rewrite (INR_num 261 261) by reflexivity. lra.
Qed.

Lemma luminance_0deg f c px py :
  luminance f 0 c px py
  = 0.5 + c * sin (2 * PI * f * py)
          * exp (- (px ^ 2 + py ^ 2) / (2 * 1.2 ^ 2)).
Proof.
  unfold luminance.
  replace ((0 + 90) * PI / 180) with (PI / 2) by lra.
  rewrite cos_PI2, sin_PI2.
  now replace (px * 0 + py * 1) with py by ring.
Qed.


Lemma sin_PI4_lower : 7 / 10 < sin (PI / 4).
Proof.
  pose proof (sin2_cos2 (PI / 4)) as H.
  rewrite <- sin_cos_PI4 in H. unfold Rsqr in H.
  assert (0 < sin (PI / 4)).
  { apply sin_gt_0; pose proof PI_RGT_0; lra. }
  nra.
Qed.

Lemma sin_probe_lower : 7 / 10 < sin (2 * PI * 3 * (44 / 511)).
Proof.
  pose proof PI_RGT_0 as HPI.
  replace (2 * PI * 3 * (44 / 511)) with (PI - 247 * PI / 511) by lra.
  rewrite sin_PI_x.
  apply Rlt_le_trans with (1 := sin_PI4_lower).
  apply sin_incr_1; lra.
Qed.

Lemma exp_lower t : 1 - t <= exp (- t).
Proof.
  destruct (Req_dec t 0) as [->|Ht].
  - rewrite Ropp_0, exp_0. lra.
  - pose proof (exp_ineq1 (- t)) as H. lra.
Qed.

Lemma exp_le_1 t : 0 <= t -> exp (- t) <= 1.
Proof.
  intros [Ht| <-].
  - rewrite <- exp_0. left. apply exp_increasing. lra.
  - rewrite Ropp_0, exp_0. lra.
Qed.

Lemma envelope_bounds px py :
  0 < exp (- (px ^ 2 + py ^ 2) / (2 * 1.2 ^ 2)) <= 1.
Proof.
  split; [apply exp_pos|].
  replace (- (px ^ 2 + py ^ 2) / (2 * 1.2 ^ 2))
    with (- ((px ^ 2 + py ^ 2) / (2 * 1.2 ^ 2))) by lra.
  apply exp_le_1.
  apply Rmult_le_pos; [nra | lra].
Qed.

Lemma luminance_deviation f o c px py :
  0 <= c -> 0.5 - c <= luminance f o c px py <= 0.5 + c.
Proof.
  intros Hc. unfold luminance; cbv zeta.
  set (s := sin _). set (g := exp _).
  assert (Hs : -1 <= s <= 1) by apply SIN_bound.
  assert (Hg : 0 < g <= 1) by apply envelope_bounds.
  assert (Hsg : -1 <= s * g <= 1) by (split; nra).
  replace (0.5 + c * s * g) with (0.5 + c * (s * g)) by ring.
  split; nra.
Qed.

Lemma probe_above_1 : 1 < luminance 3 0 1 (grid_coordinate 256) (grid_coordinate 261).
Proof.
  rewrite luminance_0deg, grid_coordinate_256, grid_coordinate_261.
  pose proof sin_probe_lower as Hs.
  set (t := ((4 / 511) ^ 2 + (44 / 511) ^ 2) / (2 * 1.2 ^ 2)).
  replace (- ((4 / 511) ^ 2 + (44 / 511) ^ 2) / (2 * 1.2 ^ 2)) with (- t)
    by (unfold t; lra).
  pose proof (exp_lower t) as Hg.
  assert (Ht : t < 1 / 100) by (unfold t; lra).
  set (s := sin _) in *. set (g := exp _) in *.
  nra.
Qed.

Lemma table_Forall (P : R -> Prop) n F :
  (forall i j, P (F i j)) -> Forall (Forall P) (table n F).
Proof.
  intros HP. unfold table.
  apply Forall_forall; intros row Hrow.
  apply list_elem_of_In, in_map_iff in Hrow as (i & <- & _).
  apply Forall_forall; intros v Hv.
  apply list_elem_of_In, in_map_iff in Hv as (j & <- & _). apply HP.
Qed.

Lemma Forall_sample (P : R -> Prop) (A : list (list R)) i j v :
  Forall (Forall P) A -> Np.sample A i j = Some v -> P v.
Proof.
  intros HA. unfold Np.sample. intros H.
  destruct (A !! i) as [row|] eqn:Hrow; [simpl in H | discriminate].
  rewrite Forall_lookup in HA. specialize (HA i row Hrow).
  rewrite Forall_lookup in HA. exact (HA j v H).
Qed.

Lemma map_const_seq {A} (c : A) start n :
  map (fun _ => c) (seq start n) = repeat c n.
Proof.
  revert start. induction n as [|n IH]; intros start; simpl; [reflexivity|].
  now rewrite IH.
Qed.

Lemma table_const n c : table n (fun _ _ => c) = repeat (repeat c n) n.
Proof. unfold table. now rewrite !map_const_seq. Qed.

(** C6.  At contrast 0 the patch is uniformly 0.5: every one of the
    512 x 512 samples is exactly 0.5, whatever the spatial frequency and
    the orientation. *)
Theorem generate_gabor_zero_contrast :
  forall cpd orientation_deg : R,
    generate_gabor cpd orientation_deg 0 = repeat (repeat 0.5 512%nat) 512%nat.
Proof.
  intros f o. rewrite generate_gabor_table, <- table_const.
  apply table_ext; intros i j.
  unfold luminance; cbv zeta. ring.
Qed.

(** C3, as stated, fails: at contrast 1, 3 cycles per degree and
    orientation 0, the sample in row 261, column 256 is above 1. *)
Lemma unit_range_at_full_contrast_fails :
  ~ (forall (contrast : R) (cpd orientation : Z),
       0 <= contrast <= 1 ->
       cpd ∈ CPD_OPTIONS -> orientation ∈ ORIENTATION_OPTIONS ->
       Forall (Forall in_unit_range)
              (generate_gabor (IZR cpd) (IZR orientation) contrast)).
Proof.
  intros H.
  assert (Hall := H 1 3%Z 0%Z ltac:(lra) ltac:(set_solver) ltac:(set_solver)).
  pose proof (generate_gabor_sample 3 0 1 261 256 ltac:(lia) ltac:(lia)) as Hs.
  pose proof (Forall_sample _ _ _ _ _ Hall Hs) as [_ Hle].
  pose proof probe_above_1. lra.
Qed.

(** C3, amended.  For every contrast in [0, 0.5] (and every spatial
    frequency and orientation) every luminance sample of the patch lies
    within [0, 1]. *)
Theorem generate_gabor_unit_range :
  forall contrast cpd orientation_deg : R,
    0 <= contrast <= 0.5 ->
    Forall (Forall in_unit_range) (generate_gabor cpd orientation_deg contrast).
Proof.
  intros c f o [Hc0 Hc1]. rewrite generate_gabor_table.
  apply table_Forall; intros i j.
  pose proof (luminance_deviation f o c (grid_coordinate j) (grid_coordinate i) Hc0)
    as Hdev.
  unfold in_unit_range. lra.
Qed.

Lemma generate_gabor_unit_range_witness :
  0 <= 0.5 <= 0.5 /\
  Forall (Forall in_unit_range) (generate_gabor 3 0 0.5).
Proof.
  split; [lra|]. apply (generate_gabor_unit_range 0.5 3 0). lra.
Defined.

(** ** Translation along the axes *)










Lemma grid_coordinate_range k : (k < 512)%nat -> -4 <= grid_coordinate k <= 4.
Proof.
  intros Hk. unfold grid_coordinate.
  assert (0 <= INR k <= 511).
  { split; [apply pos_INR|].
    replace 511 with (INR 511) by (rewrite INR_IZR_INZ; reflexivity).
    apply le_INR. lia. }
  lra.
Qed.







(** ** The contrast formula, exact arithmetic *)

Lemma decay_pow_pos (n : nat) : 0 < 0.85 ^ n.
Proof. apply pow_lt. lra. Qed.

Lemma decay_pow_le_1 (n : nat) : 0.85 ^ n <= 1.
Proof.
  induction n as [|n IH]; simpl; [lra|].
  pose proof (decay_pow_pos n). nra.
Qed.

Lemma calculate_contrast_nat (n : nat) :
  calculate_contrast (Z.of_nat n) = 0.5 * 0.85 ^ n.
Proof.
  unfold calculate_contrast, MIN_CONTRAST, INITIAL_CONTRAST, CONTRAST_DECAY_RATE.
  rewrite <- pow_powerRZ.
  replace (1 - 0.15) with 0.85 by lra.
  apply Rmax_right. pose proof (decay_pow_pos n). lra.
Qed.

Lemma calculate_contrast_nonneg (score : Z) : 0 <= calculate_contrast score.
Proof.
  unfold calculate_contrast, MIN_CONTRAST.
  eapply Rle_trans; [|apply Rmax_l]. lra.
Qed.

Lemma calculate_contrast_bounds (score : Z) :
  (0 <= score)%Z -> 0 < calculate_contrast score <= 0.5.
Proof.
  intros Hs. rewrite <- (Z2Nat.id score Hs), calculate_contrast_nat.
  pose proof (decay_pow_pos (Z.to_nat score)).
  pose proof (decay_pow_le_1 (Z.to_nat score)). lra.
Qed.

(** C9.  For a non-negative score the contrast is at most the initial
    contrast 0.5, so the patch the script renders for a drawn trial has
    every luminance sample within [0, 1], with no clamping in
    [generate_gabor]. *)
Theorem rendered_patch_unit_range :
  forall (s : session_state) (cpd orientation : Z),
    (0 <= score s)%Z ->
    current_cpd s = Some cpd ->
    current_orientation s = Some orientation ->
    calculate_contrast (score s) <= 0.5
    /\ rendered_patch s
       = Some (generate_gabor (IZR cpd) (IZR orientation)
                 (calculate_contrast (score s)))
    /\ Forall (Forall in_unit_range)
         (generate_gabor (IZR cpd) (IZR orientation)
            (calculate_contrast (score s))).
Proof.
  intros s cpd o Hscore Hcpd Ho.
  destruct (calculate_contrast_bounds (score s) Hscore) as [Hpos Hle].
  split; [exact Hle|]. split.
  - unfold rendered_patch. now rewrite Hcpd, Ho.
  - rewrite generate_gabor_table.
    apply table_Forall; intros i j.
    pose proof (luminance_deviation (IZR cpd) (IZR o)
                  (calculate_contrast (score s))
                  (grid_coordinate j) (grid_coordinate i)) as Hdev.
    unfold in_unit_range. lra.
Qed.

Lemma rendered_patch_unit_range_witness :
  calculate_contrast (score presenting_session) <= 0.5
  /\ rendered_patch presenting_session
     = Some (generate_gabor (IZR 6) (IZR 45)
               (calculate_contrast (score presenting_session)))
  /\ Forall (Forall in_unit_range)
       (generate_gabor (IZR 6) (IZR 45)
          (calculate_contrast (score presenting_session))).
Proof.
  apply (rendered_patch_unit_range presenting_session 6%Z 45%Z);
    [simpl; lia | reflexivity | reflexivity].
Defined.

(** ** Binary64: rounding of numbers below half the smallest subnormal *)

Lemma iter_pos_nat {A} (f : A -> A) (p : positive) (a : A) :
  SpecFloat.iter_pos f p a = Nat.iter (Pos.to_nat p) f a.
Proof.
  revert a. induction p as [p IH|p IH|]; intros a.
  - rewrite Pos2Nat.inj_xI. cbn [SpecFloat.iter_pos]. rewrite !IH.
    replace (S (2 * Pos.to_nat p)) with (Pos.to_nat p + S (Pos.to_nat p))%nat
      by lia.
    now rewrite Nat.iter_add, Nat.iter_succ_r.
  - rewrite Pos2Nat.inj_xO. cbn [SpecFloat.iter_pos]. rewrite !IH.
    replace (2 * Pos.to_nat p)%nat with (Pos.to_nat p + Pos.to_nat p)%nat
      by lia.
    now rewrite Nat.iter_add.
  - reflexivity.
Qed.

Lemma shr_zero_stays (k : nat) (mrs : shr_record) :
  shr_m mrs = 0%Z -> shr_r mrs = false ->
  shr_m (Nat.iter k shr_1 mrs) = 0%Z /\ shr_r (Nat.iter k shr_1 mrs) = false.
Proof.
  intros Hm Hr. induction k as [|k [IHm IHr]]; simpl; [easy|].
  destruct (Nat.iter k shr_1 mrs) as [m r s]; simpl in *. now subst.
Qed.

Lemma shr_all_digits (m : positive) :
  forall (k : nat) (mrs : shr_record),
    shr_m mrs = Z.pos m ->
    (Z.pos (digits2_pos m) < Z.of_nat k)%Z ->
    shr_m (Nat.iter k shr_1 mrs) = 0%Z /\ shr_r (Nat.iter k shr_1 mrs) = false.
Proof.
  induction m as [m IH|m IH|]; intros k [m0 r s] Hm Hk; simpl in Hm; subst m0.
  - destruct k as [|k]; [simpl in Hk; lia|].
    rewrite Nat.iter_succ_r. apply IH; [reflexivity|]. simpl in Hk. lia.
  - destruct k as [|k]; [simpl in Hk; lia|].
    rewrite Nat.iter_succ_r. apply IH; [reflexivity|]. simpl in Hk. lia.
  - destruct k as [|[|k]]; [simpl in Hk; lia | simpl in Hk; lia |].
    rewrite !Nat.iter_succ_r. now apply shr_zero_stays.
Qed.

Lemma binary_round_underflow (sx : bool) (m : positive) (e : Z) :
  (Z.pos (digits2_pos m) + e <= -1075)%Z ->
  binary_round prec emax sx m e = S754_zero sx.
Proof.
  intros Hsmall.
  assert (Hfexp : fexp prec emax (Z.pos (digits2_pos m) + e) = (-1074)%Z).
  { unfold fexp, emin, prec, emax. lia. }
  unfold binary_round. rewrite Hfexp.
  unfold shl_align.
  destruct (-1074 - e)%Z as [|d|d] eqn:Hd; try lia.
  unfold binary_round_aux, shr_fexp.
  cbn [Zdigits2 shr_record_of_loc]. rewrite Hfexp, Hd.
  unfold shr. rewrite iter_pos_nat.
  destruct (shr_all_digits m (Pos.to_nat d)
              {| shr_m := Z.pos m; shr_r := false; shr_s := false |}
              eq_refl ltac:(lia)) as [Hm Hr].
  destruct (Nat.iter (Pos.to_nat d) shr_1 _) as [m' r' s']; simpl in Hm, Hr.
  subst m' r'. cbn [shr_m loc_of_shr_record].
  replace (e + Z.pos d)%Z with (-1074)%Z by lia.
  now destruct s'.
Qed.

Lemma digits2_pos_bound (m : positive) (k : Z) :
  (Z.pos m < 2 ^ k)%Z -> (Z.pos (digits2_pos m) <= k)%Z.
Proof.
  intros Hlt.
  assert (Hlog : (Z.pos (digits2_pos m) = Z.log2 (Z.pos m) + 1)%Z).
  { clear. induction m as [m IH|m IH|]; [| |reflexivity];
      cbn [digits2_pos]; rewrite Pos2Z.inj_succ, IH.
    - rewrite Pos2Z.inj_xI, Z.log2_succ_double by lia. lia.
    - rewrite Pos2Z.inj_xO, Z.log2_double by lia. lia. }
  apply Z.log2_lt_pow2 in Hlt; lia.
Qed.

(** The significand of the binary64 number [1 - 0.15] (which is the
    binary64 number nearest to 0.85) and its exponent. *)
Lemma decay_base_binary64 :
  Prim2SF (1 - Binary64.CONTRAST_DECAY_RATE)%float
  = S754_finite false 7656119366529843 (-53).
Proof. vm_compute. reflexivity. Qed.

Lemma decay_significand_pow64 :
  (7656119366529843 ^ 64 < 2 ^ 3377)%Z.
Proof. vm_compute. reflexivity. Qed.

Lemma decay_significand_pow (p : positive) :
  (4608 <= Z.pos p)%Z ->
  (Z.pos (7656119366529843 ^ p) < 2 ^ (53 * Z.pos p - 1075))%Z.
Proof.
  intros Hp. rewrite Pos2Z.inj_pow.
  set (M := 7656119366529843%Z).
  pose proof (Z.div_mod (Z.pos p) 64 ltac:(lia)) as Hdiv.
  pose proof (Z.mod_pos_bound (Z.pos p) 64 ltac:(lia)) as Hmod.
  set (q := (Z.pos p / 64)%Z) in *. set (r := (Z.pos p mod 64)%Z) in *.
  assert (Hq : (72 <= q)%Z) by lia.
  rewrite Hdiv at 1.
  rewrite Z.pow_add_r, Z.pow_mul_r by lia.
  assert (H1 : (0 < (M ^ 64) ^ q < (2 ^ 3377) ^ q)%Z).
  { split; [apply Z.pow_pos_nonneg; [unfold M|]; lia|].
    apply Z.pow_lt_mono_l; [lia|]. split; [unfold M; lia|].
    exact decay_significand_pow64. }
  assert (H2 : (0 < M ^ r <= (2 ^ 53) ^ r)%Z).
  { split; [apply Z.pow_pos_nonneg; [unfold M|]; lia|].
    apply Z.pow_le_mono_l. unfold M. lia. }
  apply Z.lt_le_trans with ((2 ^ 3377) ^ q * (2 ^ 53) ^ r)%Z.
  - generalize dependent ((M ^ 64) ^ q)%Z. generalize ((2 ^ 3377) ^ q)%Z.
    generalize dependent (M ^ r)%Z. generalize ((2 ^ 53) ^ r)%Z.
    intros; nia.
  - clear H1 H2.
    rewrite <- (Z.pow_mul_r 2 3377 q), <- (Z.pow_mul_r 2 53 r) by lia.
    rewrite <- Z.pow_add_r by lia.
    apply Z.pow_le_mono_r; lia.
Qed.

Lemma float_pow_underflow (p : positive) :
  (4608 <= Z.pos p)%Z ->
  Binary64.float_pow (1 - Binary64.CONTRAST_DECAY_RATE)%float (Npos p)
  = 0%float.
Proof.
  intros Hp. unfold Binary64.float_pow.
  rewrite decay_base_binary64. cbn [andb].
  rewrite binary_round_underflow; [reflexivity|].
  pose proof (digits2_pos_bound _ _ (decay_significand_pow p Hp)). lia.
Qed.

Lemma binary64_contrast_underflow (score : N) :
  (4608 <= score)%N -> Binary64.calculate_contrast score = 0%float.
Proof.
  intros Hs. destruct score as [|p]; [lia|].
  unfold Binary64.calculate_contrast.
  rewrite float_pow_underflow by lia.
  vm_compute. reflexivity.
Qed.

Lemma py_max_lower (a b : float) :
  PrimFloat.leb a a = true -> PrimFloat.leb a (Binary64.py_max a b) = true.
Proof.
  intros Ha. unfold Binary64.py_max.
  destruct (PrimFloat.ltb a b) eqn:Hlt; [|exact Ha].
  rewrite ltb_spec in Hlt. rewrite leb_spec.
  unfold SFltb in Hlt. unfold SFleb.
  now destruct (SFcompare (Prim2SF a) (Prim2SF b)) as [[]|].
Qed.

Lemma binary64_contrast_nonneg (score : N) :
  PrimFloat.leb 0 (Binary64.calculate_contrast score) = true.
Proof. apply py_max_lower. vm_compute. reflexivity. Qed.

(** ** Binary64: rounding of normal numbers

    [binary_round] on an integer significand of at least 53 bits whose
    value lies in the normal range: the significand is cut to its 53
    leading bits and rounded to nearest; the result is a normal number. *)

Section Binary64Rounding.

Local Open Scope Z_scope.

Lemma shr_1_half (m : Z) (r s : bool) :
  0 <= m -> shr_m (shr_1 {| shr_m := m; shr_r := r; shr_s := s |}) = m / 2.
Proof.
  intros Hm. destruct m as [|[p|p|]|]; try lia; cbn [shr_1 shr_m].
  - reflexivity.
  - apply Z.div_unique with 1; lia.
  - apply Z.div_unique with 0; lia.
  - reflexivity.
Qed.

Lemma shr_iter_m (k : nat) (mrs : shr_record) :
  0 <= shr_m mrs ->
  shr_m (Nat.iter k shr_1 mrs) = shr_m mrs / 2 ^ Z.of_nat k.
Proof.
  intros Hm. induction k as [|k IH].
  - simpl. now rewrite Z.div_1_r.
  - rewrite Nat.iter_succ. destruct (Nat.iter k shr_1 mrs) as [m r s] eqn:E.
    cbn [shr_m] in IH. rewrite shr_1_half.
    + rewrite IH, Nat2Z.inj_succ, Z.pow_succ_r, Z.div_div by lia.
      f_equal. lia.
    + rewrite IH. apply Z.div_pos; lia.
Qed.

Lemma shr_1_even (b : Z) :
  0 <= b ->
  shr_1 {| shr_m := 2 * b; shr_r := false; shr_s := false |}
  = {| shr_m := b; shr_r := false; shr_s := false |}.
Proof. intros Hb. destruct b as [|p|p]; try lia; reflexivity. Qed.

Lemma shr_iter_exact (k : nat) (a : Z) :
  0 <= a ->
  Nat.iter k shr_1 {| shr_m := a * 2 ^ Z.of_nat k; shr_r := false; shr_s := false |}
  = {| shr_m := a; shr_r := false; shr_s := false |}.
Proof.
  intros Ha. revert a Ha. induction k as [|k IH]; intros a Ha.
  - simpl. now rewrite Z.mul_1_r.
  - rewrite Nat.iter_succ_r, Nat2Z.inj_succ, Z.pow_succ_r by lia.
    replace (a * (2 * 2 ^ Z.of_nat k)) with (2 * (a * 2 ^ Z.of_nat k)) by lia.
    rewrite shr_1_even by nia. now apply IH.
Qed.

Lemma digits2_pos_log2 (m : positive) :
  Z.pos (digits2_pos m) = Z.log2 (Z.pos m) + 1.
Proof.
  induction m as [m IH|m IH|]; [| |reflexivity];
    cbn [digits2_pos]; rewrite Pos2Z.inj_succ, IH.
  - rewrite Pos2Z.inj_xI, Z.log2_succ_double by lia. lia.
  - rewrite Pos2Z.inj_xO, Z.log2_double by lia. lia.
Qed.

Lemma digits2_pos_spec (m : positive) :
  2 ^ (Z.pos (digits2_pos m) - 1) <= Z.pos m < 2 ^ Z.pos (digits2_pos m).
Proof.
  rewrite digits2_pos_log2.
  pose proof (Z.log2_spec (Z.pos m) ltac:(lia)) as H.
  replace (Z.log2 (Z.pos m) + 1 - 1) with (Z.log2 (Z.pos m)) by lia.
  replace (Z.log2 (Z.pos m) + 1) with (Z.succ (Z.log2 (Z.pos m))) by lia.
  exact H.
Qed.

Lemma digits2_pos_unique (m : positive) (n : Z) :
  2 ^ (n - 1) <= Z.pos m < 2 ^ n -> Z.pos (digits2_pos m) = n.
Proof.
  intros [Hlo Hhi]. rewrite digits2_pos_log2.
  assert (0 < n).
  { destruct (Z.le_gt_cases n 0) as [Hn|Hn]; [|exact Hn].
    assert (2 ^ n <= 2 ^ 0) by (apply Z.pow_le_mono_r; lia).
    simpl in *. lia. }
  pose proof (Z.log2_unique (Z.pos m) (n - 1) ltac:(lia)) as H'.
  replace (Z.succ (n - 1)) with n in H' by lia.
  rewrite H'; lia.
Qed.

Lemma round_nearest_even_cases (q : Z) (l : location) :
  round_nearest_even q l = q \/ round_nearest_even q l = q + 1.
Proof.
  destruct l as [|[]]; simpl; auto. destruct (Z.even q); auto.
Qed.

Lemma fexp_normal (n : Z) : -1021 <= n -> fexp prec emax n = n - 53.
Proof. intros Hn. unfold fexp, SpecFloat.emin, prec, emax. lia. Qed.

Lemma shr_phase1 (p : positive) (e k : Z) :
  0 <= k ->
  exists mrs,
    shr {| shr_m := Z.pos p; shr_r := false; shr_s := false |} e k
    = (mrs, e + k)
    /\ shr_m mrs = Z.pos p / 2 ^ k
    /\ (Z.pos p mod 2 ^ k = 0 -> loc_of_shr_record mrs = loc_Exact).
Proof.
  intros Hk. destruct k as [|kp|kp]; [| |lia].
  - eexists. cbn [shr]. split; [now rewrite Z.add_0_r|].
    split; [cbn [shr_m]; now rewrite Z.div_1_r | reflexivity].
  - eexists. cbn [shr]. split; [reflexivity|].
    rewrite iter_pos_nat. split.
    + rewrite shr_iter_m by (simpl; lia). cbn [shr_m].
      now rewrite positive_nat_Z.
    + intros Hmod.
      assert (Hp : Z.pos p = Z.pos p / 2 ^ Z.pos kp * 2 ^ Z.of_nat (Pos.to_nat kp)).
      { rewrite positive_nat_Z.
        pose proof (Z.div_mod (Z.pos p) (2 ^ Z.pos kp) ltac:(lia)). lia. }
      rewrite Hp, shr_iter_exact; [reflexivity|].
      apply Z.div_pos; lia.
Qed.

Lemma shr_phase2 (m1 E : Z) :
  2 ^ 52 <= m1 <= 2 ^ 53 -> -1074 <= E ->
  shr_fexp prec emax m1 E loc_Exact
  = if m1 =? 2 ^ 53
    then ({| shr_m := 2 ^ 52; shr_r := false; shr_s := false |}, E + 1)
    else ({| shr_m := m1; shr_r := false; shr_s := false |}, E).
Proof.
  intros Hm HE. destruct m1 as [|p1|p1]; try lia.
  unfold shr_fexp. cbn [Zdigits2 shr_record_of_loc].
  destruct (Z.eqb_spec (Z.pos p1) (2 ^ 53)) as [Heq|Hne].
  - assert (Hp1 : p1 = 9007199254740992%positive) by lia. subst p1.
    change (Z.pos (digits2_pos 9007199254740992)) with 54.
    replace (fexp prec emax (54 + E) - E) with 1
      by (unfold fexp, SpecFloat.emin, prec, emax; lia).
    reflexivity.
  - rewrite (digits2_pos_unique p1 53) by lia.
    replace (fexp prec emax (53 + E) - E) with 0
      by (unfold fexp, SpecFloat.emin, prec, emax; lia).
    reflexivity.
Qed.

Lemma binary_round_aux_normal (p : positive) (e : Z) :
  let d := Z.pos (digits2_pos p) in
  let q := Z.pos p / 2 ^ (d - 53) in
  let E := d + e - 53 in
  53 <= d -> -1074 <= E <= 970 ->
  exists (m' : positive) (e' : Z),
    binary_round_aux prec emax false (Z.pos p) e loc_Exact
    = S754_finite false m' e'
    /\ 2 ^ 52 <= Z.pos m' < 2 ^ 53
    /\ 2 ^ 52 <= q < 2 ^ 53
    /\ ((e' = E /\ (Z.pos m' = q \/ Z.pos m' = q + 1))
        \/ (e' = E + 1 /\ Z.pos m' = 2 ^ 52 /\ q + 1 = 2 ^ 53))
    /\ (Z.pos p mod 2 ^ (d - 53) = 0 -> e' = E /\ Z.pos m' = q).
Proof.
  intros d q E Hd HE.
  pose proof (digits2_pos_spec p) as Hdig. fold d in Hdig.
  assert (Hpow : 2 ^ (d - 1) = 2 ^ (d - 53) * 2 ^ 52).
  { rewrite <- Z.pow_add_r by lia. f_equal. lia. }
  assert (Hpow' : 2 ^ d = 2 ^ (d - 53) * 2 ^ 53).
  { rewrite <- Z.pow_add_r by lia. f_equal. lia. }
  assert (Hk : 0 < 2 ^ (d - 53)) by (apply Z.pow_pos_nonneg; lia).
  assert (Hq : 2 ^ 52 <= q < 2 ^ 53).
  { unfold q. split.
    - apply Z.div_le_lower_bound; lia.
    - apply Z.div_lt_upper_bound; lia. }
  unfold binary_round_aux, shr_fexp. cbn [Zdigits2 shr_record_of_loc].
  fold d. rewrite (fexp_normal (d + e)) by lia.
  replace (d + e - 53 - e) with (d - 53) by lia.
  destruct (shr_phase1 p e (d - 53) ltac:(lia)) as (mrs & Hshr & Hm & Hexact).
  rewrite Hshr. replace (e + (d - 53)) with E by (unfold E; lia).
  rewrite Hm. fold q.
  set (m1 := round_nearest_even q (loc_of_shr_record mrs)).
  assert (Hm1 : m1 = q \/ m1 = q + 1) by apply round_nearest_even_cases.
  pose proof (shr_phase2 m1 E ltac:(lia) ltac:(lia)) as H2.
  unfold shr_fexp in H2. cbn [shr_record_of_loc] in H2.
  destruct (Z.eqb_spec m1 (2 ^ 53)) as [Heq|Hne].
  - change (shr_record_of_loc m1 loc_Exact)
      with {| shr_m := m1; shr_r := false; shr_s := false |}.
    rewrite H2. cbn [shr_m].
    change (2 ^ 52) with (Z.pos 4503599627370496) at 1.
    cbv iota beta.
    replace (E + 1 <=? emax - prec) with true
      by (symmetry; apply Z.leb_le; unfold emax, prec; lia).
    exists 4503599627370496%positive, (E + 1).
    split; [reflexivity|]. split; [lia|]. split; [exact Hq|].
    split; [right; lia|].
    intros Hmod. specialize (Hexact Hmod). unfold m1 in Heq.
    rewrite Hexact in Heq. simpl in Heq. lia.
  - change (shr_record_of_loc m1 loc_Exact)
      with {| shr_m := m1; shr_r := false; shr_s := false |}.
    rewrite H2. cbn [shr_m].
    destruct m1 as [|pm|pm] eqn:Em1; try lia.
    replace (E <=? emax - prec) with true
      by (symmetry; apply Z.leb_le; unfold emax, prec; lia).
    exists pm, E.
    split; [reflexivity|]. split; [lia|]. split; [exact Hq|].
    split; [left; lia|].
    intros Hmod. specialize (Hexact Hmod).
    split; [reflexivity|].
    rewrite <- Em1. unfold m1. now rewrite Hexact.
Qed.

Lemma binary_round_no_shift (p : positive) (e : Z) :
  53 <= Z.pos (digits2_pos p) -> -1021 <= Z.pos (digits2_pos p) + e ->
  binary_round prec emax false p e
  = binary_round_aux prec emax false (Z.pos p) e loc_Exact.
Proof.
  intros Hd He. unfold binary_round, shl_align.
  rewrite fexp_normal by lia.
  destruct (Z.pos (digits2_pos p) + e - 53 - e) eqn:Hk; try reflexivity. lia.
Qed.

Lemma SFltb_finite (m1 m2 : positive) (e1 e2 : Z) :
  e1 < e2 \/ (e1 = e2 /\ Z.pos m1 < Z.pos m2) ->
  SFltb (S754_finite false m1 e1) (S754_finite false m2 e2) = true.
Proof.
  intros H. unfold SFltb, SFcompare.
  destruct (Z.compare_spec e1 e2) as [Heq|Hlt|Hgt]; [|reflexivity|lia].
  destruct H as [H|[_ H]]; [lia|].
  change (Pos.compare_cont Eq m1 m2) with (Pos.compare m1 m2).
  now rewrite (proj2 (Pos.compare_lt_iff m1 m2) ltac:(lia)).
Qed.

(** Half of a normal number: multiplication by the float 0.5. *)
Lemma SFmul_half (m : positive) (e : Z) :
  2 ^ 52 <= Z.pos m < 2 ^ 53 -> -1073 <= e <= 971 ->
  SFmul prec emax (S754_finite false 4503599627370496 (-53))
                  (S754_finite false m e)
  = S754_finite false m (e - 1).
Proof.
  intros Hm He. cbn [SFmul xorb].
  set (pm := (4503599627370496 * m)%positive).
  assert (Hpm : Z.pos pm = Z.pos m * 2 ^ 52) by (unfold pm; lia).
  assert (Hdig : Z.pos (digits2_pos pm) = 105).
  { apply digits2_pos_unique. rewrite Hpm.
    change (2 ^ (105 - 1)) with (2 ^ 52 * 2 ^ 52).
    change (2 ^ 105) with (2 ^ 53 * 2 ^ 52). nia. }
  destruct (binary_round_aux_normal pm (-53 + e)) as
    (m' & e' & Heq & _ & _ & _ & Hexact).
  - rewrite Hdig. lia.
  - rewrite Hdig. lia.
  - rewrite Heq. rewrite Hdig in Hexact.
    change (105 - 53) with 52 in Hexact.
    destruct Hexact as [-> Hm'].
    + rewrite Hpm. apply Z.mod_mul. lia.
    + rewrite Hpm, Z.div_mul in Hm' by lia.
      f_equal; lia.
Qed.

(** ** Binary64: the powers of the decay base up to score 4000 *)

Lemma decay_significand_range : 2 ^ 52 < 7656119366529843 < 2 ^ 53.
Proof. split; reflexivity. Qed.

Lemma decay_significand_pow8 : 2 ^ 422 <= 7656119366529843 ^ 8.
Proof. vm_compute. discriminate. Qed.

Lemma decay_significand_pow64_lower : 2 ^ 3376 <= 7656119366529843 ^ 64.
Proof. vm_compute. discriminate. Qed.

Lemma decay_significand_pow_lower (p : positive) :
  Z.pos p <= 4000 ->
  2 ^ (53 * Z.pos p - 1013) <= Z.pos (7656119366529843 ^ p).
Proof.
  intros Hp. rewrite Pos2Z.inj_pow.
  set (M := 7656119366529843).
  pose proof (Z.div_mod (Z.pos p) 64 ltac:(lia)) as Hdiv.
  pose proof (Z.mod_pos_bound (Z.pos p) 64 ltac:(lia)) as Hmod.
  set (q := Z.pos p / 64) in *. set (r := Z.pos p mod 64) in *.
  pose proof (Z.div_mod r 8 ltac:(lia)) as Hdiv8.
  pose proof (Z.mod_pos_bound r 8 ltac:(lia)) as Hmod8.
  set (a := r / 8) in *. set (b := r mod 8) in *.
  assert (Hq : 0 <= q <= 62) by lia.
  assert (Ha : 0 <= a <= 7) by lia.
  replace (Z.pos p) with (64 * q + (8 * a + b)) at 2 by lia.
  rewrite !Z.pow_add_r, !Z.pow_mul_r by lia.
  assert (H1 : (2 ^ 3376) ^ q <= (M ^ 64) ^ q).
  { apply Z.pow_le_mono_l. split; [lia|]. exact decay_significand_pow64_lower. }
  assert (H2 : (2 ^ 422) ^ a <= (M ^ 8) ^ a).
  { apply Z.pow_le_mono_l. split; [lia|]. exact decay_significand_pow8. }
  assert (H3 : (2 ^ 52) ^ b <= M ^ b).
  { apply Z.pow_le_mono_l. unfold M. lia. }
  assert (P1 : 0 < (2 ^ 3376) ^ q) by (apply Z.pow_pos_nonneg; lia).
  assert (P2 : 0 < (2 ^ 422) ^ a) by (apply Z.pow_pos_nonneg; lia).
  assert (P3 : 0 < (2 ^ 52) ^ b) by (apply Z.pow_pos_nonneg; lia).
  apply Z.le_trans with ((2 ^ 3376) ^ q * ((2 ^ 422) ^ a * (2 ^ 52) ^ b)).
  - clear H1 H2 H3 P1 P2 P3.
    rewrite <- (Z.pow_mul_r 2 3376 q), <- (Z.pow_mul_r 2 422 a),
      <- (Z.pow_mul_r 2 52 b) by lia.
    rewrite <- !Z.pow_add_r by lia.
    apply Z.pow_le_mono_r; lia.
  - generalize dependent ((M ^ 64) ^ q). generalize dependent ((2 ^ 3376) ^ q).
    generalize dependent ((M ^ 8) ^ a). generalize dependent ((2 ^ 422) ^ a).
    generalize dependent (M ^ b). generalize dependent ((2 ^ 52) ^ b).
    intros. apply Z.mul_le_mono_nonneg; try lia.
    apply Z.mul_le_mono_nonneg; lia.
Qed.

Lemma decay_significand_pow_upper (p : positive) :
  Z.pos (7656119366529843 ^ p) < 2 ^ (53 * Z.pos p).
Proof.
  rewrite Pos2Z.inj_pow, Z.pow_mul_r by lia.
  apply Z.pow_lt_mono_l; [lia|]. split; [lia|reflexivity].
Qed.

Lemma decay_significand_pow_ge (p : positive) :
  2 ^ 52 <= Z.pos (7656119366529843 ^ p).
Proof.
  rewrite Pos2Z.inj_pow.
  apply Z.le_trans with (7656119366529843 ^ 1); [simpl; lia|].
  apply Z.pow_le_mono_r; lia.
Qed.

Lemma decay_digits (p : positive) :
  Z.pos p <= 4000 ->
  let d := Z.pos (digits2_pos (7656119366529843 ^ p)) in
  53 <= d /\ 53 * Z.pos p - 1012 <= d <= 53 * Z.pos p.
Proof.
  intros Hp d.
  pose proof (digits2_pos_spec (7656119366529843 ^ p)) as [Hlo Hhi]. fold d in Hlo, Hhi.
  pose proof (decay_significand_pow_lower p Hp) as Hl.
  pose proof (decay_significand_pow_upper p) as Hu.
  pose proof (decay_significand_pow_ge p) as Hg.
  assert (Hd0 : 0 < d) by (unfold d; lia).
  split; [|split].
  - assert (52 < d); [|lia].
    apply (Z.pow_lt_mono_r_iff 2); lia.
  - assert (53 * Z.pos p - 1013 < d); [|lia].
    apply (Z.pow_lt_mono_r_iff 2); lia.
  - assert (d - 1 < 53 * Z.pos p); [|lia].
    apply (Z.pow_lt_mono_r_iff 2); lia.
Qed.

Lemma valid_binary_normal (m : positive) (e : Z) :
  2 ^ 52 <= Z.pos m < 2 ^ 53 -> -1074 <= e <= 971 ->
  valid_binary (S754_finite false m e) = true.
Proof.
  intros Hm He. unfold valid_binary, bounded, canonical_mantissa.
  rewrite (digits2_pos_unique m 53) by (change (53 - 1) with 52; lia).
  rewrite fexp_normal by lia.
  apply andb_true_intro. split.
  - apply Z.eqb_eq. lia.
  - apply Z.leb_le. unfold emax, prec. lia.
Qed.

Lemma top53_step (P : positive) :
  let M := 7656119366529843 in
  let d := Z.pos (digits2_pos P) in
  let d' := Z.pos (digits2_pos (7656119366529843 * P)) in
  53 <= d ->
  (d' = d + 53 /\ top53 (7656119366529843 * P) * 2 ^ 53 < (top53 P + 1) * M)
  \/ (d' = d + 52 /\ top53 (7656119366529843 * P) * 2 ^ 52 < (top53 P + 1) * M).
Proof.
  intros M d d' Hd.
  pose proof (digits2_pos_spec P) as [Hlo Hhi]. fold d in Hlo, Hhi.
  set (A := 2 ^ (d - 53)).
  assert (HA : 0 < A) by (apply Z.pow_pos_nonneg; lia).
  assert (HdA : 2 ^ d = A * 2 ^ 53).
  { unfold A. rewrite <- Z.pow_add_r by lia. f_equal. lia. }
  assert (Hd1A : 2 ^ (d - 1) = A * 2 ^ 52).
  { unfold A. rewrite <- Z.pow_add_r by lia. f_equal. lia. }
  assert (HP : Z.pos P < (top53 P + 1) * A).
  { unfold top53. fold d. fold A.
    pose proof (Z.mul_succ_div_gt (Z.pos P) A HA). lia. }
  assert (HPM : Z.pos (7656119366529843 * P) = M * Z.pos P) by (unfold M; lia).
  assert (HM : 2 ^ 52 < M < 2 ^ 53) by (unfold M; split; reflexivity).
  destruct (Z_lt_le_dec (M * Z.pos P) (A * 2 ^ 105)) as [Hsmall|Hbig].
  - right.
    assert (Hd' : d' = d + 52).
    { apply digits2_pos_unique. rewrite HPM.
      replace (d + 52 - 1) with (d - 53 + 104) by lia.
      replace (d + 52) with (d - 53 + 105) by lia.
      rewrite !Z.pow_add_r by lia. fold A.
      split; [|exact Hsmall].
      rewrite Hd1A in Hlo. change (2 ^ 104) with (2 ^ 52 * 2 ^ 52).
      clear - Hlo HM HA. nia. }
    split; [exact Hd'|].
    unfold top53 at 1. fold d'. rewrite Hd', HPM.
    replace (d + 52 - 53) with (d - 1) by lia. rewrite Hd1A.
    pose proof (Z.mul_div_le (M * Z.pos P) (A * 2 ^ 52) ltac:(lia)) as Hq.
    set (q1 := M * Z.pos P / (A * 2 ^ 52)) in *.
    apply (Z.mul_lt_mono_pos_r A); [exact HA|].
    assert (HMP : M * Z.pos P < M * ((top53 P + 1) * A))
      by (apply Z.mul_lt_mono_pos_l; lia).
    clearbody M q1 A. generalize dependent (top53 P). intros q2 _ HMP.
    clear - Hq HMP. lia.
  - left.
    assert (Hd' : d' = d + 53).
    { apply digits2_pos_unique. rewrite HPM.
      replace (d + 53 - 1) with (d - 53 + 105) by lia.
      replace (d + 53) with (d - 53 + 106) by lia.
      rewrite !Z.pow_add_r by lia. fold A.
      split; [exact Hbig|].
      rewrite HdA in Hhi. change (2 ^ 106) with (2 ^ 53 * 2 ^ 53).
      clear - Hhi HM HA. nia. }
    split; [exact Hd'|].
    unfold top53 at 1. fold d'. rewrite Hd', HPM.
    replace (d + 53 - 53) with d by lia. rewrite HdA.
    pose proof (Z.mul_div_le (M * Z.pos P) (A * 2 ^ 53) ltac:(lia)) as Hq.
    set (q1 := M * Z.pos P / (A * 2 ^ 53)) in *.
    apply (Z.mul_lt_mono_pos_r A); [exact HA|].
    assert (HMP : M * Z.pos P < M * ((top53 P + 1) * A))
      by (apply Z.mul_lt_mono_pos_l; lia).
    clearbody M q1 A. generalize dependent (top53 P). intros q2 _ HMP.
    clear - Hq HMP. lia.
Qed.

Lemma Prim2SF_initial_contrast :
  Prim2SF Binary64.INITIAL_CONTRAST = S754_finite false 4503599627370496 (-53).
Proof. vm_compute. reflexivity. Qed.

Lemma Prim2SF_min_contrast : Prim2SF Binary64.MIN_CONTRAST = S754_zero false.
Proof. vm_compute. reflexivity. Qed.

(** The contrast of a score between 1 and 4000 is a normal binary64 number:
    the 53 leading bits of the exact power, rounded to nearest, one binade
    below the power. *)
Lemma binary64_contrast_normal (p : positive) :
  Z.pos p <= 4000 ->
  let P := (7656119366529843 ^ p)%positive in
  let E := Z.pos (digits2_pos P) - 53 * Z.pos p - 54 in
  exists (m : positive) (e : Z),
    Prim2SF (Binary64.calculate_contrast (Npos p)) = S754_finite false m e
    /\ 2 ^ 52 <= Z.pos m < 2 ^ 53
    /\ 2 ^ 52 <= top53 P < 2 ^ 53
    /\ ((e = E /\ (Z.pos m = top53 P \/ Z.pos m = top53 P + 1))
        \/ (e = E + 1 /\ Z.pos m = 2 ^ 52 /\ top53 P + 1 = 2 ^ 53)).
Proof.
  intros Hp P E.
  destruct (decay_digits p Hp) as [Hd53 [Hdlo Hdhi]]. fold P in Hd53, Hdlo, Hdhi.
  unfold Binary64.calculate_contrast, Binary64.float_pow.
  rewrite decay_base_binary64. cbn [andb].
  rewrite binary_round_no_shift by (fold P; lia).
  destruct (binary_round_aux_normal P (-53 * Z.pos p)) as
    (m & e & Heq & Hm & Hq & Hcases & _); [lia|lia|].
  fold P. rewrite Heq.
  assert (He : -1074 <= e <= 971) by lia.
  set (y := (Binary64.INITIAL_CONTRAST * SF2Prim (S754_finite false m e))%float).
  assert (Hy : Prim2SF y = S754_finite false m (e - 1)).
  { unfold y. rewrite mul_spec, Prim2SF_initial_contrast.
    rewrite Prim2SF_SF2Prim by (apply valid_binary_normal; lia).
    apply SFmul_half; lia. }
  assert (Hmax : Binary64.py_max Binary64.MIN_CONTRAST y = y).
  { unfold Binary64.py_max.
    rewrite ltb_spec, Prim2SF_min_contrast, Hy. reflexivity. }
  rewrite Hmax. exists m, (e - 1).
  split; [exact Hy|]. split; [exact Hm|]. split; [exact Hq|].
  unfold top53. fold P. unfold E. lia.
Qed.

Lemma binary64_contrast_step (p : positive) :
  Z.pos p < 4000 ->
  PrimFloat.ltb (Binary64.calculate_contrast (Npos p + 1))
                (Binary64.calculate_contrast (Npos p)) = true.
Proof.
  intros Hp.
  replace (N.pos p + 1)%N with (N.pos (Pos.succ p)) by lia.
  destruct (binary64_contrast_normal p ltac:(lia)) as
    (m2 & e2 & Heq2 & Hm2 & Hq2 & Hc2).
  destruct (binary64_contrast_normal (Pos.succ p) ltac:(lia)) as
    (m1 & e1 & Heq1 & Hm1 & Hq1 & Hc1).
  rewrite ltb_spec, Heq1, Heq2.
  destruct (decay_digits p ltac:(lia)) as [Hd53 _].
  rewrite Pos.pow_succ_r in Hq1, Hc1.
  pose proof (top53_step (7656119366529843 ^ p) Hd53) as Hstep.
  cbv zeta in Hstep.
  set (P := (7656119366529843 ^ p)%positive) in *.
  set (q2 := top53 P) in *.
  set (q1 := top53 (7656119366529843 * P)) in *.
  set (d := Z.pos (digits2_pos P)) in *.
  set (d' := Z.pos (digits2_pos (7656119366529843 * P))) in *.
  rewrite Pos2Z.inj_succ in Hc1.
  apply SFltb_finite.
  clearbody q1 q2 d d'. clear Heq1 Heq2 P.
  lia.
Qed.

Lemma binary64_contrast_positive (p : positive) :
  Z.pos p <= 4000 ->
  PrimFloat.ltb 0 (Binary64.calculate_contrast (Npos p)) = true.
Proof.
  intros Hp.
  destruct (binary64_contrast_normal p Hp) as (m & e & Heq & _).
  rewrite ltb_spec, Heq. reflexivity.
Qed.

Lemma binary64_contrast_decreasing (score : N) :
  (score < 4000)%N ->
  PrimFloat.ltb (Binary64.calculate_contrast (score + 1))
                (Binary64.calculate_contrast score) = true
  /\ PrimFloat.ltb 0 (Binary64.calculate_contrast score) = true.
Proof.
  intros Hs. destruct score as [|p].
  - split; vm_compute; reflexivity.
  - split.
    + apply binary64_contrast_step. lia.
    + apply binary64_contrast_positive. lia.
Qed.

End Binary64Rounding.

(** C2.  For every non-negative score the contrast is
    [max(0, 0.5 * 0.85^score)]: 0.5 exactly at score 0, 0.425 at score 1
    and 0.36125, within 0.0001 of 0.3613, at score 2.  The binary64
    evaluation returns exactly the floats 0.5 and 0.425 at scores 0 and 1,
    and a float within 0.0001 of 0.3613 at score 2. *)
Theorem calculate_contrast_formula :
  (forall n : nat,
      calculate_contrast (Z.of_nat n) = Rmax 0 (0.5 * 0.85 ^ n))
  /\ calculate_contrast 0 = 0.5
  /\ calculate_contrast 1 = 0.425
  /\ Rabs (calculate_contrast 2 - 0.3613) <= 0.0001
  /\ Binary64.calculate_contrast 0 = 0.5%float
  /\ Binary64.calculate_contrast 1 = 0.425%float
  /\ PrimFloat.leb
       (PrimFloat.abs (Binary64.calculate_contrast 2 - 0.3613)) 0.0001
     = true.
Proof.
  split.
  { intros n. rewrite calculate_contrast_nat.
    symmetry. apply Rmax_right. pose proof (decay_pow_pos n). lra. }
  split; [apply (eq_trans (calculate_contrast_nat 0)); simpl; lra|].
  split; [apply (eq_trans (calculate_contrast_nat 1)); simpl; lra|].
  split.
  { change 2%Z with (Z.of_nat 2). rewrite calculate_contrast_nat. simpl.
    apply Rabs_le. lra. }
  repeat split; vm_compute; reflexivity.
Qed.

(** C4, as stated, fails on the floats the program computes with: at
    score 5000 the binary64 product has underflowed, the contrast is 0.0
    at scores 5000 and 5001, neither smaller than the other nor above 0. *)
Lemma binary64_contrast_reaches_floor :
  ~ (forall score : N,
       PrimFloat.ltb (Binary64.calculate_contrast (score + 1))
                     (Binary64.calculate_contrast score) = true
       /\ PrimFloat.ltb 0 (Binary64.calculate_contrast score) = true).
Proof.
  intros H. destruct (H 5000%N) as [_ Hpos].
  rewrite binary64_contrast_underflow in Hpos by lia.
  vm_compute in Hpos. discriminate.
Qed.

(** C4, amended.  On the binary64 floats the program computes with, the
    contrast is strictly decreasing in the score and positive for every
    score below 4000; for every score from 4608 on it is exactly 0.0. *)
Theorem contrast_strictly_decreasing :
  (forall score : N,
      (score < 4000)%N ->
      PrimFloat.ltb (Binary64.calculate_contrast (score + 1))
                    (Binary64.calculate_contrast score) = true
      /\ PrimFloat.ltb 0 (Binary64.calculate_contrast score) = true)
  /\ (forall score : N,
        (4608 <= score)%N -> Binary64.calculate_contrast score = 0%float).
Proof.
  split.
  - exact binary64_contrast_decreasing.
  - exact binary64_contrast_underflow.
Qed.

Lemma contrast_strictly_decreasing_witness :
  ((10 < 4000)%N
   /\ PrimFloat.ltb (Binary64.calculate_contrast (10 + 1))
                    (Binary64.calculate_contrast 10) = true
   /\ PrimFloat.ltb 0 (Binary64.calculate_contrast 10) = true)
  /\ ((4608 <= 5000)%N /\ Binary64.calculate_contrast 5000 = 0%float).
Proof.
  split.
  - split; [lia|]. apply (proj1 contrast_strictly_decreasing 10%N). lia.
  - split; [lia|]. apply (proj2 contrast_strictly_decreasing 5000%N). lia.
Defined.

(** C8.  The contrast is never negative: for every integer score in exact
    arithmetic, and for every score, however large, in the binary64
    evaluation. *)
Theorem calculate_contrast_never_negative :
  (forall score : Z, 0 <= calculate_contrast score)
  /\ (forall score : N,
        PrimFloat.leb 0 (Binary64.calculate_contrast score) = true).
Proof.
  split; [exact calculate_contrast_nonneg | exact binary64_contrast_nonneg].
Qed.

(** ** The answer handler *)

Lemma orientation_eq_spec (guessed : Z) (current : option Z) :
  orientation_eq guessed current = true <-> current = Some guessed.
Proof.
  unfold orientation_eq. destruct current as [o|]; [|easy].
  rewrite Z.eqb_eq. split; [now intros ->|now intros [= ->]].
Qed.

Lemma orientation_name_drawn (o : Z) :
  o ∈ ORIENTATION_OPTIONS ->
  exists name, forall s, orientation_name (Some o) s = (Returned name, s).
Proof.
  unfold ORIENTATION_OPTIONS. intros Ho.
  repeat (apply elem_of_cons in Ho as [->|Ho]);
    [eexists; intros s; reflexivity .. | now apply elem_of_nil in Ho].
Qed.

(** C7.  An answer submitted while no feedback is shown is judged by
    equality with the drawn orientation: the score goes up by exactly 1 if
    and only if the guess equals it, and is unchanged otherwise.  With an
    orientation drawn from the option list the handler returns normally
    and leaves the feedback flag set. *)
Theorem check_answer_scores_by_equality :
  forall (guessed_orientation : Z) (s : session_state),
    show_feedback s = false ->
    let s' := snd (check_answer guessed_orientation s) in
    (current_orientation s = Some guessed_orientation ->
       score s' = (score s + 1)%Z)
    /\ (current_orientation s <> Some guessed_orientation ->
       score s' = score s)
    /\ (score s' = (score s + 1)%Z <->
        current_orientation s = Some guessed_orientation)
    /\ (forall o, current_orientation s = Some o ->
          o ∈ ORIENTATION_OPTIONS ->
          fst (check_answer guessed_orientation s) = Returned tt
          /\ show_feedback s' = true
          /\ current_orientation s' = Some o).
Proof.
  intros g s Hshow.
  assert (Hcorrect : current_orientation s = Some g ->
            check_answer g s
            = (Returned tt,
               set_show_feedback true
                 (set_feedback_color "green"
                    (set_feedback "✓ Correct!"
                       (set_score (score s + 1) s))))).
  { intros Hcur. apply orientation_eq_spec in Hcur.
    unfold check_answer, bind, read, write, ret. now rewrite Hshow, Hcur. }
  assert (Hwrong : current_orientation s <> Some g ->
            score (snd (check_answer g s)) = score s).
  { intros Hcur.
    assert (Hneq : orientation_eq g (current_orientation s) = false).
    { destruct (orientation_eq g (current_orientation s)) eqn:E; [|easy].
      now apply orientation_eq_spec in E. }
    unfold check_answer, bind, read, write, ret. rewrite Hshow, Hneq.
    unfold orientation_name, raise, ret.
    now destruct (current_orientation s ≫= _). }
  cbv zeta. split; [|split; [|split]].
  - intros Hcur. now rewrite (Hcorrect Hcur).
  - exact Hwrong.
  - split.
    + intros Hinc.
      destruct (decide (current_orientation s = Some g)) as [|Hne]; [easy|].
      rewrite (Hwrong Hne) in Hinc. lia.
    + intros Hcur. now rewrite (Hcorrect Hcur).
  - intros o Hcur Ho.
    destruct (decide (o = g)) as [->|Hne].
    + now rewrite (Hcorrect Hcur).
    + assert (Hneq : orientation_eq g (current_orientation s) = false).
      { rewrite Hcur. simpl. apply Z.eqb_neq. congruence. }
      destruct (orientation_name_drawn o Ho) as [name Hname].
      unfold check_answer, bind, read, write, ret.
      rewrite Hshow, Hneq, Hcur, Hname. simpl. now rewrite Hcur.
Qed.

Lemma check_answer_scores_by_equality_witness :
  score (snd (check_answer 45 presenting_session)) = 5%Z
  /\ score (snd (check_answer 90 presenting_session)) = 4%Z.
Proof.
  split.
  - apply (proj1 (check_answer_scores_by_equality 45%Z presenting_session
                    eq_refl)).
    reflexivity.
  - apply (proj1 (proj2 (check_answer_scores_by_equality 90%Z
                           presenting_session eq_refl))).
    discriminate.
Defined.

(** C10.  While feedback is shown, a further answer changes nothing: the
    handler returns at once and the whole session state (score, drawn
    orientation and frequency, feedback text and colour, feedback flag) is
    the one it was called in. *)
Theorem check_answer_ignored_during_feedback :
  forall (guessed_orientation : Z) (s : session_state),
    show_feedback s = true ->
    check_answer guessed_orientation s = (Returned tt, s).
Proof.
  intros g s Hshow.
  unfold check_answer, bind, read, ret. now rewrite Hshow.
Qed.

Lemma check_answer_ignored_during_feedback_witness :
  check_answer 45 feedback_session = (Returned tt, feedback_session).
Proof.
  apply (check_answer_ignored_during_feedback 45%Z feedback_session).
  reflexivity.
Defined.

(** * Further properties of the handlers *)

Lemma check_answer_when_showing (g : Z) (s : session_state) :
  show_feedback s = true -> check_answer g s = (Returned tt, s).
Proof.
  intros Hshow. unfold check_answer, bind, read, ret. now rewrite Hshow.
Qed.

Lemma check_answer_correct (g : Z) (s : session_state) :
  show_feedback s = false -> current_orientation s = Some g ->
  check_answer g s
  = (Returned tt,
     set_show_feedback true
       (set_feedback_color "green"
          (set_feedback "✓ Correct!" (set_score (score s + 1) s)))).
Proof.
  intros Hshow Hcur. apply orientation_eq_spec in Hcur.
  unfold check_answer, bind, read, write, ret. now rewrite Hshow, Hcur.
Qed.

Lemma orientation_eq_false (g : Z) (current : option Z) :
  current <> Some g -> orientation_eq g current = false.
Proof.
  intros Hne. destruct (orientation_eq g current) eqn:E; [|reflexivity].
  now apply orientation_eq_spec in E.
Qed.

Lemma check_answer_wrong (g : Z) (s : session_state) (name : string) :
  show_feedback s = false -> current_orientation s <> Some g ->
  (current_orientation s ≫= fun k => ORIENTATION_NAMES !! k) = Some name ->
  check_answer g s
  = (Returned tt,
     set_show_feedback true
       (set_feedback_color "red"
          (set_feedback ("✗ Wrong! It was " ++ name) s))).
Proof.
  intros Hshow Hne Hname.
  unfold check_answer, bind, read, write, ret.
  rewrite Hshow, (orientation_eq_false _ _ Hne).
  unfold orientation_name. now rewrite Hname.
Qed.

Lemma check_answer_key_error (g : Z) (s : session_state) :
  show_feedback s = false -> current_orientation s <> Some g ->
  (current_orientation s ≫= fun k => ORIENTATION_NAMES !! k) = None ->
  check_answer g s = (Raised KeyError, s).
Proof.
  intros Hshow Hne Hname.
  unfold check_answer, bind, read, write, ret.
  rewrite Hshow, (orientation_eq_false _ _ Hne).
  unfold orientation_name. now rewrite Hname.
Qed.

(** X1.  The feedback of an answer.  With no feedback shown and a drawn
    orientation that has a name, [check_answer] returns normally, sets the
    feedback flag and leaves the trial as it is; the message is "Correct"
    in green for the right guess, and names the drawn orientation in red
    for a wrong one. *)
Theorem check_answer_feedback :
  forall (g o : Z) (s : session_state) (name : string),
    show_feedback s = false ->
    current_orientation s = Some o ->
    ORIENTATION_NAMES !! o = Some name ->
    let s' := snd (check_answer g s) in
    fst (check_answer g s) = Returned tt
    /\ show_feedback s' = true
    /\ current_orientation s' = Some o
    /\ current_cpd s' = current_cpd s
    /\ (g = o -> feedback s' = "✓ Correct!"%string
                 /\ feedback_color s' = "green"%string)
    /\ (g <> o -> feedback s' = ("✗ Wrong! It was " ++ name)%string
                  /\ feedback_color s' = "red"%string
                  /\ score s' = score s).
Proof.
  intros g o s name Hshow Hcur Hname. cbv zeta.
  destruct (decide (g = o)) as [->|Hne].
  - rewrite (check_answer_correct o s Hshow Hcur). simpl.
    repeat split; try easy.
  - rewrite (check_answer_wrong g s name Hshow); simpl.
    + repeat split; try easy.
    + rewrite Hcur. congruence.
    + now rewrite Hcur.
Qed.

Lemma check_answer_feedback_witness :
  feedback (snd (check_answer 90 presenting_session))
  = "✗ Wrong! It was Diagonal (↗)"%string
  /\ feedback (snd (check_answer 45 presenting_session))
     = "✓ Correct!"%string.
Proof.
  split.
  - apply (check_answer_feedback 90%Z 45%Z presenting_session
             "Diagonal (↗)" eq_refl eq_refl eq_refl).
    discriminate.
  - apply (check_answer_feedback 45%Z 45%Z presenting_session
             "Diagonal (↗)" eq_refl eq_refl eq_refl).
    reflexivity.
Defined.

(** X2.  The missing key.  With no feedback shown, a guess that differs
    from the current orientation when that orientation is [None] (no trial
    drawn yet) or is not a key of [ORIENTATION_NAMES] raises [KeyError],
    and the session state is left exactly as it was: the lookup comes
    before every write of that branch. *)
Theorem check_answer_missing_name :
  forall (g : Z) (s : session_state),
    show_feedback s = false ->
    current_orientation s <> Some g ->
    (current_orientation s ≫= fun k => ORIENTATION_NAMES !! k) = None ->
    check_answer g s = (Raised KeyError, s).
Proof. exact check_answer_key_error. Qed.

Lemma check_answer_missing_name_witness :
  check_answer 45 initial_session = (Raised KeyError, initial_session)
  /\ check_answer 0 (set_current_orientation (Some 30%Z) presenting_session)
     = (Raised KeyError,
        set_current_orientation (Some 30%Z) presenting_session).
Proof.
  split.
  - apply (check_answer_missing_name 45%Z initial_session);
      [reflexivity | discriminate | reflexivity].
  - apply (check_answer_missing_name 0%Z);
      [reflexivity | discriminate | reflexivity].
Defined.

Lemma check_answer_returned_shows (g : Z) (s s1 : session_state) :
  check_answer g s = (Returned tt, s1) -> show_feedback s1 = true.
Proof.
  intros H. destruct (show_feedback s) eqn:Hshow.
  - rewrite (check_answer_when_showing g s Hshow) in H. congruence.
  - destruct (decide (current_orientation s = Some g)) as [Hcur|Hne].
    + rewrite (check_answer_correct g s Hshow Hcur) in H.
      now inversion H.
    + destruct (current_orientation s ≫= fun k => ORIENTATION_NAMES !! k)
        as [name|] eqn:Hname.
      * rewrite (check_answer_wrong g s name Hshow Hne Hname) in H.
        now inversion H.
      * rewrite (check_answer_key_error g s Hshow Hne Hname) in H.
        discriminate.
Qed.

(** X3.  One answer per trial.  Once [check_answer] has returned, any
    further call (before a new patch is drawn) returns at once and changes
    nothing; so two answers in a row raise the score by at most 1. *)
Theorem check_answer_twice :
  forall (g1 g2 : Z) (s s1 : session_state),
    check_answer g1 s = (Returned tt, s1) ->
    check_answer g2 s1 = (Returned tt, s1)
    /\ (score s <= score s1 <= score s + 1)%Z.
Proof.
  intros g1 g2 s s1 H1. split.
  - apply check_answer_when_showing.
    exact (check_answer_returned_shows g1 s s1 H1).
  - destruct (show_feedback s) eqn:Hshow.
    + rewrite (check_answer_when_showing g1 s Hshow) in H1.
      inversion H1; subst. lia.
    + destruct (decide (current_orientation s = Some g1)) as [Hcur|Hne].
      * rewrite (check_answer_correct g1 s Hshow Hcur) in H1.
        inversion H1; subst. simpl. lia.
      * destruct (current_orientation s ≫= fun k => ORIENTATION_NAMES !! k)
          as [name|] eqn:Hname.
        -- rewrite (check_answer_wrong g1 s name Hshow Hne Hname) in H1.
           inversion H1; subst. simpl. lia.
        -- rewrite (check_answer_key_error g1 s Hshow Hne Hname) in H1.
           discriminate.
Qed.

Lemma check_answer_twice_witness :
  check_answer 45
    (set_show_feedback true
       (set_feedback_color "green"
          (set_feedback "✓ Correct!" (set_score 5 presenting_session))))
  = (Returned tt,
     set_show_feedback true
       (set_feedback_color "green"
          (set_feedback "✓ Correct!" (set_score 5 presenting_session)))).
Proof.
  apply (check_answer_twice 45%Z 45%Z presenting_session). reflexivity.
Defined.

(** X4.  A new patch re-arms the answer handler.  [generate_new_patch]
    never raises and keeps the score (and the feedback colour); whatever
    the session was before, even with feedback on show, the next answer is
    judged against the newly drawn orientation: the right guess scores,
    any other guess does not. *)
Theorem generate_new_patch_rearms :
  forall (cpd o g : Z) (s : session_state),
    let s1 := snd (generate_new_patch cpd o s) in
    fst (generate_new_patch cpd o s) = Returned tt
    /\ score s1 = score s
    /\ feedback_color s1 = feedback_color s
    /\ score (snd (check_answer o s1)) = (score s + 1)%Z
    /\ (g <> o -> score (snd (check_answer g s1)) = score s).
Proof.
  intros cpd o g s. cbv zeta.
  split; [reflexivity|]. split; [reflexivity|]. split; [reflexivity|].
  split.
  - now rewrite check_answer_correct.
  - intros Hne.
    assert (Hcur : current_orientation (snd (generate_new_patch cpd o s))
                   <> Some g) by (simpl; congruence).
    destruct (current_orientation (snd (generate_new_patch cpd o s))
                ≫= fun k => ORIENTATION_NAMES !! k) as [name|] eqn:Hname.
    + now rewrite (check_answer_wrong g (snd (generate_new_patch cpd o s))
                     name eq_refl Hcur Hname).
    + now rewrite (check_answer_key_error g
                     (snd (generate_new_patch cpd o s)) eq_refl Hcur Hname).
Qed.

Lemma generate_new_patch_rearms_witness :
  score (snd (check_answer 90 (snd (generate_new_patch 3 0 feedback_session))))
  = score feedback_session.
Proof.
  apply (generate_new_patch_rearms 3%Z 0%Z 90%Z feedback_session).
  discriminate.
Defined.

(** X5.  Reset.  From every session [reset_game] returns normally with
    score 0, the drawn trial, no feedback text and the feedback flag
    cleared; the contrast for the new score is the initial 0.5.  The
    feedback colour is the one thing it leaves as it was. *)
Theorem reset_game_result :
  forall (cpd o : Z) (s : session_state),
    reset_game cpd o s
    = (Returned tt,
       {| score := 0; current_orientation := Some o;
          current_cpd := Some cpd; feedback := "";
          feedback_color := feedback_color s; show_feedback := false |})
    /\ calculate_contrast (score (snd (reset_game cpd o s))) = 0.5.
Proof.
  intros cpd o s. split; [reflexivity|].
  simpl score. apply (eq_trans (calculate_contrast_nat 0)). simpl. lra.
Qed.

(** * Further properties of the contrast *)

Lemma decay_pow_antitone (n m : nat) : (n <= m)%nat -> 0.85 ^ m <= 0.85 ^ n.
Proof.
  induction 1 as [|m Hle IH]; [lra|].
  simpl. pose proof (decay_pow_pos m). lra.
Qed.

(** X6.  The decay step.  For every score below 4000 a correct answer
    lowers the contrast to between 84 % and 86 % of its value (the factor
    is 1 - 0.15; the sidebar text says 8 %); five correct answers more
    than halve it, four do not. *)
Theorem calculate_contrast_step :
  forall n : nat,
    (n < 4000)%nat ->
    0.84 * calculate_contrast (Z.of_nat n)
      < calculate_contrast (Z.of_nat (S n))
      < 0.86 * calculate_contrast (Z.of_nat n)
    /\ calculate_contrast (Z.of_nat (n + 5))
       < calculate_contrast (Z.of_nat n) / 2
    /\ calculate_contrast (Z.of_nat n) / 2
       < calculate_contrast (Z.of_nat (n + 4)).
Proof.
  intros n _. rewrite !calculate_contrast_nat, !pow_add.
  pose proof (decay_pow_pos n) as Hpos.
  split; [simpl; lra|]. split; simpl; nra.
Qed.

Lemma calculate_contrast_step_witness :
  (3 < 4000)%nat
  /\ 0.84 * calculate_contrast 3 < calculate_contrast 4
       < 0.86 * calculate_contrast 3
  /\ calculate_contrast 8 < calculate_contrast 3 / 2
  /\ calculate_contrast 3 / 2 < calculate_contrast 7.
Proof.
  split; [lia|]. apply (calculate_contrast_step 3). lia.
Defined.

(** X7.  The contrast decays to the floor: it gets and stays below any
    positive threshold once the score is large enough. *)
Theorem calculate_contrast_vanishes :
  forall eps : R,
    0 < eps ->
    exists N : nat,
      forall n : nat, (N <= n)%nat -> calculate_contrast (Z.of_nat n) < eps.
Proof.
  intros eps Heps.
  destruct (pow_lt_1_zero 0.85 ltac:(rewrite Rabs_pos_eq; lra) eps Heps)
    as [N HN].
  exists N. intros n Hn. rewrite calculate_contrast_nat.
  specialize (HN n ltac:(lia)).
  rewrite Rabs_pos_eq in HN by (left; apply decay_pow_pos).
  pose proof (decay_pow_pos n). lra.
Qed.

Lemma calculate_contrast_vanishes_witness :
  exists N : nat,
    forall n : nat, (N <= n)%nat -> calculate_contrast (Z.of_nat n) < 0.01.
Proof. apply (calculate_contrast_vanishes 0.01). lra. Defined.

Lemma difficulty_medium c : 0.2 < c <= 0.5 -> difficulty c = "Medium 😐"%string.
Proof.
  intros Hc. unfold difficulty.
  destruct (Rgt_dec c 0.5); [lra|]. destruct (Rgt_dec c 0.2); [easy|lra].
Qed.

Lemma difficulty_hard c : 0.05 < c <= 0.2 -> difficulty c = "Hard 😰"%string.
Proof.
  intros Hc. unfold difficulty.
  destruct (Rgt_dec c 0.5); [lra|]. destruct (Rgt_dec c 0.2); [lra|].
  destruct (Rgt_dec c 0.05); [easy|lra].
Qed.

Lemma difficulty_very_hard c :
  0.01 < c <= 0.05 -> difficulty c = "Very Hard 🤯"%string.
Proof.
  intros Hc. unfold difficulty.
  destruct (Rgt_dec c 0.5); [lra|]. destruct (Rgt_dec c 0.2); [lra|].
  destruct (Rgt_dec c 0.05); [lra|]. destruct (Rgt_dec c 0.01); [easy|lra].
Qed.

Lemma difficulty_extreme c : c <= 0.01 -> difficulty c = "Extreme! 💀"%string.
Proof.
  intros Hc. unfold difficulty.
  destruct (Rgt_dec c 0.5); [lra|]. destruct (Rgt_dec c 0.2); [lra|].
  destruct (Rgt_dec c 0.05); [lra|]. destruct (Rgt_dec c 0.01); [lra|easy].
Qed.

Lemma decay_pow_5 : 0.4 < 0.85 ^ 5.
Proof. simpl. lra. Qed.
Lemma decay_pow_6 : 0.85 ^ 6 < 0.4.
Proof. simpl. lra. Qed.
Lemma decay_pow_14 : 0.1 < 0.85 ^ 14.
Proof. simpl. lra. Qed.
Lemma decay_pow_15 : 0.85 ^ 15 < 0.1.
Proof. simpl. lra. Qed.
Lemma decay_pow_24 : 0.02 < 0.85 ^ 24.
Proof. simpl. lra. Qed.
Lemma decay_pow_25 : 0.85 ^ 25 < 0.02.
Proof. simpl. lra. Qed.

(** X8.  The difficulty label by score.  The contrast of a non-negative
    score never exceeds 0.5, so the label is never "Easy": it is "Medium"
    for scores 0 to 5, "Hard" for 6 to 14, "Very Hard" for 15 to 24 and
    "Extreme!" from 25 on. *)
Theorem difficulty_by_score :
  forall n : nat,
    difficulty (calculate_contrast (Z.of_nat n))
    = (if (n <=? 5)%nat then "Medium 😐"
       else if (n <=? 14)%nat then "Hard 😰"
       else if (n <=? 24)%nat then "Very Hard 🤯"
       else "Extreme! 💀")%string
    /\ difficulty (calculate_contrast (Z.of_nat n)) <> "Easy 😊"%string.
Proof.
  intros n. rewrite calculate_contrast_nat.
  pose proof (decay_pow_pos n) as Hpos.
  pose proof (decay_pow_le_1 n) as Hle1.
  assert (Hlabel : difficulty (0.5 * 0.85 ^ n)
    = (if (n <=? 5)%nat then "Medium 😐"
       else if (n <=? 14)%nat then "Hard 😰"
       else if (n <=? 24)%nat then "Very Hard 🤯"
       else "Extreme! 💀")%string).
  { destruct (Nat.leb_spec n 5) as [H5|H5].
    { pose proof (decay_pow_antitone n 5 H5). pose proof decay_pow_5.
      apply difficulty_medium. lra. }
    pose proof (decay_pow_antitone 6 n ltac:(lia)). pose proof decay_pow_6.
    destruct (Nat.leb_spec n 14) as [H14|H14].
    { pose proof (decay_pow_antitone n 14 H14). pose proof decay_pow_14.
      apply difficulty_hard. lra. }
    pose proof (decay_pow_antitone 15 n ltac:(lia)). pose proof decay_pow_15.
    destruct (Nat.leb_spec n 24) as [H24|H24].
    { pose proof (decay_pow_antitone n 24 H24). pose proof decay_pow_24.
      apply difficulty_very_hard. lra. }
    pose proof (decay_pow_antitone 25 n ltac:(lia)). pose proof decay_pow_25.
    apply difficulty_extreme. lra. }
  split; [exact Hlabel|]. rewrite Hlabel.
  destruct (n <=? 5)%nat; [discriminate|].
  destruct (n <=? 14)%nat; [discriminate|].
  destruct (n <=? 24)%nat; discriminate.
Qed.

(** * Properties of the script *)

Lemma orientation_has_name (o : Z) :
  o ∈ ORIENTATION_OPTIONS -> exists name, ORIENTATION_NAMES !! o = Some name.
Proof.
  unfold ORIENTATION_OPTIONS. intros Ho.
  repeat (apply elem_of_cons in Ho as [->|Ho]);
    [eexists; reflexivity .. | now apply elem_of_nil in Ho].
Qed.

Lemma script_run_reset draw s k o :
  current_orientation s = Some o ->
  script_run draw (Some ResetButton) s k
  = (Rerun, snd (reset_game (fst (draw k)) (snd (draw k)) s), S k).
Proof. intros Ho. unfold script_run. now rewrite Ho. Qed.

Lemma script_run_feedback draw clicked s k o :
  current_orientation s = Some o ->
  show_feedback s = true ->
  clicked <> Some ResetButton ->
  script_run draw clicked s k
  = (Rerun, snd (generate_new_patch (fst (draw k)) (snd (draw k)) s), S k).
Proof.
  intros Ho Hshow Hclick. unfold script_run. rewrite Ho, Hshow.
  destruct clicked as [[]|]; easy.
Qed.

Lemma script_run_idle draw s k cpd o :
  current_cpd s = Some cpd -> current_orientation s = Some o ->
  show_feedback s = false -> feedback s = ""%string ->
  script_run draw None s k
  = (Completed {| page_score := score s;
                  page_contrast := calculate_contrast (score s);
                  page_patch := generate_gabor (IZR cpd) (IZR o)
                                  (calculate_contrast (score s));
                  page_difficulty := difficulty (calculate_contrast (score s)) |},
     s, k).
Proof.
  intros Hc Ho Hshow Hfb. unfold script_run.
  rewrite Ho, Hshow, Hfb. cbn [nonempty]. now rewrite Hc, Ho.
Qed.

Lemma script_run_answer draw b g s k cpd o :
  current_cpd s = Some cpd -> current_orientation s = Some o ->
  show_feedback s = false -> feedback s = ""%string ->
  button_orientation b = Some g ->
  script_run draw (Some b) s k
  = match check_answer g s with
    | (Returned _, s3) => (Rerun, s3, k)
    | (Raised e, s3) => (Failed (HandlerError e), s3, k)
    end.
Proof.
  intros Hc Ho Hshow Hfb Hb. unfold script_run.
  rewrite Ho, Hshow, Hfb. cbn [nonempty]. rewrite Hc, Ho.
  destruct b; simpl in Hb; [discriminate| | |];
    injection Hb as <-; reflexivity.
Qed.

Lemma new_patch_presenting draw k s :
  valid_draws draw -> (0 <= score s)%Z ->
  presenting (snd (generate_new_patch (fst (draw k)) (snd (draw k)) s)).
Proof.
  intros Hd Hs. destruct (Hd k) as [Hc Ho].
  repeat split; simpl; eauto.
Qed.

(** X9.  The first run.  From the initial session a run without a click
    draws the first trial, completes without a rerun and shows score 0,
    contrast 0.5 and the patch of the drawn trial at contrast 0.5; the
    session it leaves is awaiting an answer. *)
Theorem first_run_presents :
  forall draw : nat -> Z * Z,
    valid_draws draw ->
    exists (p : page) (s : session_state),
      interact 1 draw None initial_session 0 = (Completed p, s, 1%nat)
      /\ presenting s
      /\ current_cpd s = Some (fst (draw 0%nat))
      /\ current_orientation s = Some (snd (draw 0%nat))
      /\ page_score p = 0%Z
      /\ page_contrast p = 0.5
      /\ page_patch p
         = generate_gabor (IZR (fst (draw 0%nat))) (IZR (snd (draw 0%nat))) 0.5.
Proof.
  intros draw Hd.
  assert (Hc0 : calculate_contrast 0 = 0.5).
  { apply (eq_trans (calculate_contrast_nat 0)). simpl. lra. }
  do 2 eexists. split; [reflexivity|].
  split; [apply (new_patch_presenting draw 0 initial_session Hd); simpl; lia|].
  repeat split; simpl; try exact Hc0. now rewrite Hc0.
Qed.

Lemma first_run_presents_witness :
  exists (p : page) (s : session_state),
    interact 1 example_draw None initial_session 0 = (Completed p, s, 1%nat)
    /\ current_orientation s = Some 90%Z
    /\ page_contrast p = 0.5.
Proof.
  assert (Hd : valid_draws example_draw).
  { intros k. unfold example_draw.
    destruct (Nat.even k); simpl; split; set_solver. }
  destruct (first_run_presents example_draw Hd)
    as (p & s & Hrun & _ & _ & Ho & _ & Hc & _).
  exists p, s. auto.
Defined.

Lemma interact_answer :
  forall (draw : nat -> Z * Z) (b : button) (g o : Z)
         (s : session_state) (k : nat),
    valid_draws draw ->
    presenting s ->
    current_orientation s = Some o ->
    button_orientation b = Some g ->
    exists (p : page) (s' : session_state),
      interact 3 draw (Some b) s k = (Completed p, s', S k)
      /\ fst (fst (interact 2 draw (Some b) s k)) = Rerun
      /\ score s' = (if decide (g = o) then score s + 1 else score s)%Z
      /\ current_cpd s' = Some (fst (draw k))
      /\ current_orientation s' = Some (snd (draw k))
      /\ presenting s'
      /\ page_score p = score s'
      /\ page_contrast p = calculate_contrast (score s')
      /\ page_patch p
         = generate_gabor (IZR (fst (draw k))) (IZR (snd (draw k)))
             (calculate_contrast (score s')).
Proof.
  intros draw b g o s k Hd (Hshow & Hfb & (cpd & Hc & _) & (o' & Ho' & Hopt)
                            & Hscore) Ho Hb.
  rewrite Ho in Ho'. injection Ho' as <-.
  destruct (orientation_has_name o Hopt) as [name Hname].
  assert (Hanswered : exists s1,
    check_answer g s = (Returned tt, s1)
    /\ show_feedback s1 = true /\ current_orientation s1 = Some o
    /\ score s1 = (if decide (g = o) then score s + 1 else score s)%Z).
  { destruct (decide (g = o)) as [->|Hne].
    - eexists. split; [apply (check_answer_correct o s Hshow Ho)|]. easy.
    - eexists. split.
      + apply (check_answer_wrong g s name Hshow);
          [rewrite Ho; congruence | now rewrite Ho].
      + easy. }
  destruct Hanswered as (s1 & Hcheck & Hshow1 & Ho1 & Hscore1).
  pose proof (new_patch_presenting draw k s1 Hd
                ltac:(rewrite Hscore1; destruct (decide (g = o)); lia))
    as Hpres.
  set (s2 := snd (generate_new_patch (fst (draw k)) (snd (draw k)) s1)) in *.
  assert (Hrun1 : script_run draw (Some b) s k = (Rerun, s1, k)).
  { rewrite (script_run_answer draw b g s k cpd o Hc Ho Hshow Hfb Hb).
    now rewrite Hcheck. }
  assert (Hrun2 : script_run draw None s1 k = (Rerun, s2, S k)).
  { now apply (script_run_feedback draw None s1 k o Ho1 Hshow1). }
  assert (Hrun3 : script_run draw None s2 (S k)
    = (Completed {| page_score := score s2;
                    page_contrast := calculate_contrast (score s2);
                    page_patch :=
                      generate_gabor (IZR (fst (draw k))) (IZR (snd (draw k)))
                        (calculate_contrast (score s2));
                    page_difficulty :=
                      difficulty (calculate_contrast (score s2)) |},
       s2, S k)).
  { now apply script_run_idle. }
  eexists _, s2. split.
  { cbn [interact]. rewrite Hrun1, Hrun2, Hrun3. reflexivity. }
  split.
  { cbn [interact]. now rewrite Hrun1, Hrun2. }
  split; [exact Hscore1|]. repeat split; try apply Hpres; reflexivity.
Qed.

(** X10.  An answer click.  In a session awaiting an answer, a click on an
    answer button takes exactly three runs: the score goes up by 1 if the
    button's orientation is the drawn one and stays otherwise, the next
    draw becomes the trial, and the completed page shows the new score,
    its contrast and the new patch; the session is awaiting an answer
    again, with no feedback left on show. *)
Theorem answer_click :
  forall (draw : nat -> Z * Z) (b : button) (g o : Z)
         (s : session_state) (k : nat),
    valid_draws draw ->
    presenting s ->
    current_orientation s = Some o ->
    button_orientation b = Some g ->
    exists (p : page) (s' : session_state),
      interact 3 draw (Some b) s k = (Completed p, s', S k)
      /\ fst (fst (interact 2 draw (Some b) s k)) = Rerun
      /\ score s' = (if decide (g = o) then score s + 1 else score s)%Z
      /\ current_cpd s' = Some (fst (draw k))
      /\ current_orientation s' = Some (snd (draw k))
      /\ presenting s'
      /\ page_score p = score s'
      /\ page_contrast p = calculate_contrast (score s')
      /\ page_patch p
         = generate_gabor (IZR (fst (draw k))) (IZR (snd (draw k)))
             (calculate_contrast (score s')).
Proof. exact interact_answer. Qed.

Lemma answer_click_witness :
  exists (p : page) (s' : session_state),
    interact 3 example_draw (Some DiagonalButton) presenting_session 7
    = (Completed p, s', 8%nat)
    /\ score s' = 5%Z
    /\ current_orientation s' = Some 0%Z.
Proof.
  assert (Hd : valid_draws example_draw).
  { intros k. unfold example_draw.
    destruct (Nat.even k); simpl; split; set_solver. }
  assert (Hp : presenting presenting_session).
  { repeat split; simpl; try lia; eexists; (split; [reflexivity|set_solver]). }
  destruct (answer_click example_draw DiagonalButton 45 45
              presenting_session 7 Hd Hp eq_refl eq_refl)
    as (p & s' & Hrun & _ & Hscore & _ & Ho & _).
  exists p, s'. auto.
Defined.

Lemma interact_reset :
  forall (draw : nat -> Z * Z) (o : Z) (s : session_state) (k : nat),
    valid_draws draw ->
    current_orientation s = Some o ->
    exists (p : page) (s' : session_state),
      interact 2 draw (Some ResetButton) s k = (Completed p, s', S k)
      /\ score s' = 0%Z
      /\ current_cpd s' = Some (fst (draw k))
      /\ current_orientation s' = Some (snd (draw k))
      /\ presenting s'
      /\ page_score p = 0%Z
      /\ page_contrast p = 0.5
      /\ page_patch p
         = generate_gabor (IZR (fst (draw k))) (IZR (snd (draw k))) 0.5.
Proof.
  intros draw o s k Hd Ho.
  assert (Hc0 : calculate_contrast 0 = 0.5).
  { apply (eq_trans (calculate_contrast_nat 0)). simpl. lra. }
  set (s1 := snd (reset_game (fst (draw k)) (snd (draw k)) s)).
  assert (Hpres : presenting s1).
  { destruct (Hd k) as [Hc Hor]. repeat split; simpl; eauto; lia. }
  eexists _, s1. split.
  { cbn [interact]. rewrite (script_run_reset draw s k o Ho). fold s1.
    rewrite (script_run_idle draw s1 (S k) (fst (draw k)) (snd (draw k)))
      by reflexivity.
    reflexivity. }
  repeat split; try apply Hpres; simpl; try exact Hc0. now rewrite Hc0.
Qed.

(** X11.  A reset click.  Whenever a trial has been drawn, also with
    feedback on show, a click on the reset button takes two runs and ends
    on a page with score 0 and contrast 0.5 for the newly drawn trial; the
    session is awaiting an answer. *)
Theorem reset_click :
  forall (draw : nat -> Z * Z) (o : Z) (s : session_state) (k : nat),
    valid_draws draw ->
    current_orientation s = Some o ->
    exists (p : page) (s' : session_state),
      interact 2 draw (Some ResetButton) s k = (Completed p, s', S k)
      /\ score s' = 0%Z
      /\ current_cpd s' = Some (fst (draw k))
      /\ current_orientation s' = Some (snd (draw k))
      /\ presenting s'
      /\ page_score p = 0%Z
      /\ page_contrast p = 0.5
      /\ page_patch p
         = generate_gabor (IZR (fst (draw k))) (IZR (snd (draw k))) 0.5.
Proof. exact interact_reset. Qed.

Lemma reset_click_witness :
  exists (p : page) (s' : session_state),
    interact 2 example_draw (Some ResetButton) feedback_session 2
    = (Completed p, s', 3%nat)
    /\ score s' = 0%Z /\ page_contrast p = 0.5.
Proof.
  assert (Hd : valid_draws example_draw).
  { intros k. unfold example_draw.
    destruct (Nat.even k); simpl; split; set_solver. }
  destruct (reset_click example_draw 45 feedback_session 2 Hd eq_refl)
    as (p & s' & Hrun & Hscore & _ & _ & _ & _ & Hc & _).
  exists p, s'. auto.
Defined.

(** X12.  A click while feedback is on show is dropped.  If a run starts
    with the feedback flag set, the script draws the next trial and reruns
    before it reads the answer buttons: an answer click in that run never
    reaches [check_answer], the score is unchanged and the page that
    completes shows the new trial. *)
Theorem answer_click_during_feedback :
  forall (draw : nat -> Z * Z) (b : button) (o : Z)
         (s : session_state) (k : nat),
    valid_draws draw ->
    (0 <= score s)%Z ->
    current_orientation s = Some o ->
    show_feedback s = true ->
    b <> ResetButton ->
    exists (p : page) (s' : session_state),
      interact 2 draw (Some b) s k = (Completed p, s', S k)
      /\ score s' = score s
      /\ current_cpd s' = Some (fst (draw k))
      /\ current_orientation s' = Some (snd (draw k))
      /\ presenting s'
      /\ page_score p = score s.
Proof.
  intros draw b o s k Hd Hscore Ho Hshow Hb.
  pose proof (new_patch_presenting draw k s Hd Hscore) as Hpres.
  set (s1 := snd (generate_new_patch (fst (draw k)) (snd (draw k)) s)) in *.
  eexists _, s1. split.
  { cbn [interact].
    rewrite (script_run_feedback draw (Some b) s k o Ho Hshow)
      by congruence.
    fold s1.
    rewrite (script_run_idle draw s1 (S k) (fst (draw k)) (snd (draw k)))
      by reflexivity.
    reflexivity. }
  repeat split; try apply Hpres; reflexivity.
Qed.

Lemma answer_click_during_feedback_witness :
  exists (p : page) (s' : session_state),
    interact 2 example_draw (Some DiagonalButton) feedback_session 2
    = (Completed p, s', 3%nat)
    /\ score s' = 5%Z.
Proof.
  assert (Hd : valid_draws example_draw).
  { intros k. unfold example_draw.
    destruct (Nat.even k); simpl; split; set_solver. }
  destruct (answer_click_during_feedback example_draw DiagonalButton 45
              feedback_session 2 Hd ltac:(simpl; lia) eq_refl eq_refl
              ltac:(discriminate))
    as (p & s' & Hrun & Hscore & _).
  exists p, s'. auto.
Defined.

Lemma interact_click draw (b : button) (s : session_state) (k : nat) :
  valid_draws draw -> presenting s ->
  exists (p : page) (s' : session_state),
    interact 3 draw (Some b) s k = (Completed p, s', S k)
    /\ presenting s'
    /\ (score s' <= score s + (if is_answer b then 1 else 0))%Z.
Proof.
  intros Hd Hp.
  pose proof Hp as (_ & _ & _ & (o & Ho & _) & Hscore).
  destruct (button_orientation b) as [g|] eqn:Hb.
  - destruct (interact_answer draw b g o s k Hd Hp Ho Hb)
      as (p & s' & Hrun & _ & Hs & _ & _ & Hp' & _).
    exists p, s'. split; [exact Hrun|]. split; [exact Hp'|].
    unfold is_answer. rewrite Hb, Hs. destruct (decide (g = o)); lia.
  - destruct b; try discriminate.
    destruct (interact_reset draw o s k Hd Ho)
      as (p & s' & Hrun & Hs & _ & _ & Hp' & _).
    exists p, s'. split.
    + cbn [interact] in Hrun |- *.
      destruct (script_run draw (Some ResetButton) s k) as [[[] s1] k1];
        try exact Hrun.
      destruct (script_run draw None s1 k1) as [[[] s2] k2];
        try exact Hrun. discriminate.
    + split; [exact Hp'|]. rewrite Hs. simpl. lia.
Qed.

(** X13.  Any sequence of clicks.  Starting from a session awaiting an
    answer, every click of every sequence is followed to a completed page
    (no failure, at most three runs each); each click consumes exactly one
    draw; the session ends awaiting an answer, and its score has grown by
    no more than the number of answer clicks. *)
Theorem play_stays_presenting :
  forall (draw : nat -> Z * Z) (clicks : list button)
         (s : session_state) (k : nat),
    valid_draws draw ->
    presenting s ->
    exists s' : session_state,
      play draw clicks s k = Some (s', (k + length clicks)%nat)
      /\ presenting s'
      /\ (0 <= score s' <= score s + Z.of_nat (answers clicks))%Z.
Proof.
  intros draw clicks. induction clicks as [|b rest IH]; intros s k Hd Hp.
  - exists s. simpl. rewrite Nat.add_0_r.
    pose proof Hp as (_ & _ & _ & _ & Hscore).
    split; [reflexivity|]. split; [exact Hp|]. unfold answers. simpl. lia.
  - destruct (interact_click draw b s k Hd Hp) as (p & s1 & Hrun & Hp1 & Hs1).
    destruct (IH s1 (S k) Hd Hp1) as (s' & Hplay & Hp' & Hs').
    exists s'. split.
    + cbn [play]. rewrite Hrun, Hplay. f_equal. f_equal. simpl. lia.
    + split; [exact Hp'|].
      unfold answers in *. simpl List.filter.
      destruct (is_answer b); simpl length in *; lia.
Qed.

Lemma play_stays_presenting_witness :
  exists s' : session_state,
    play example_draw [DiagonalButton; ResetButton; VerticalButton]
         presenting_session 0
    = Some (s', 3%nat)
    /\ presenting s'.
Proof.
  assert (Hd : valid_draws example_draw).
  { intros k. unfold example_draw.
    destruct (Nat.even k); simpl; split; set_solver. }
  assert (Hp : presenting presenting_session).
  { repeat split; simpl; try lia; eexists; (split; [reflexivity|set_solver]). }
  destruct (play_stays_presenting example_draw
              [DiagonalButton; ResetButton; VerticalButton]
              presenting_session 0 Hd Hp)
    as (s' & Hplay & Hp' & _).
  exists s'. auto.
Defined.

Lemma script_run_undrawn draw clicked s k :
  current_orientation s = None ->
  script_run draw clicked s k
  = script_run draw clicked
      (snd (generate_new_patch (fst (draw k)) (snd (draw k)) s)) (S k).
Proof. intros Ho. unfold script_run. now rewrite Ho. Qed.

Lemma sound_drawn_intro (s : session_state) (cpd o : Z) :
  (show_feedback s = false -> feedback s = ""%string) ->
  (0 <= score s)%Z ->
  current_cpd s = Some cpd -> current_orientation s = Some o ->
  cpd ∈ CPD_OPTIONS -> o ∈ ORIENTATION_OPTIONS ->
  sound s.
Proof. intros. split; [|split]; [assumption..|]. right. eauto 10. Qed.

Lemma script_run_sound_drawn draw clicked s k cpd o :
  valid_draws draw ->
  (show_feedback s = false -> feedback s = ""%string) ->
  (0 <= score s)%Z ->
  current_cpd s = Some cpd -> current_orientation s = Some o ->
  cpd ∈ CPD_OPTIONS -> o ∈ ORIENTATION_OPTIONS ->
  sound (snd (fst (script_run draw clicked s k)))
  /\ forall e, fst (fst (script_run draw clicked s k)) <> Failed e.
Proof.
  intros Hd Hfb Hscore Hc Ho Hcin Hoin.
  destruct (Hd k) as [Hdc Hdo].
  assert (Hreset : clicked = Some ResetButton ->
            sound (snd (fst (script_run draw clicked s k)))
            /\ forall e, fst (fst (script_run draw clicked s k)) <> Failed e).
  { intros ->. rewrite (script_run_reset draw s k o Ho). simpl. split; [|easy].
    eapply sound_drawn_intro; simpl; eauto; lia. }
  destruct (show_feedback s) eqn:Hshow.
  { assert (Hcases : clicked = Some ResetButton
                       \/ clicked <> Some ResetButton).
    { destruct clicked as [[]|]; auto; right; discriminate. }
    destruct Hcases as [Hr|Hr]; [auto|].
    rewrite (script_run_feedback draw clicked s k o Ho Hshow Hr). simpl.
    split; [|easy]. eapply sound_drawn_intro; simpl; eauto. }
  specialize (Hfb eq_refl).
  destruct clicked as [b|].
  - destruct (button_orientation b) as [g|] eqn:Hb;
      [|destruct b; try discriminate; auto].
    rewrite (script_run_answer draw b g s k cpd o Hc Ho Hshow Hfb Hb).
    destruct (orientation_has_name o Hoin) as [name Hname].
    destruct (decide (g = o)) as [->|Hne].
    + rewrite (check_answer_correct o s Hshow Ho). simpl. split; [|easy].
      eapply sound_drawn_intro; simpl; eauto; try easy; lia.
    + rewrite (check_answer_wrong g s name Hshow)
        by (rewrite Ho; simpl; congruence).
      simpl. split; [|easy].
      eapply sound_drawn_intro; simpl; eauto; easy.
  - rewrite (script_run_idle draw s k cpd o Hc Ho Hshow Hfb). simpl.
    split; [|easy]. eapply sound_drawn_intro; eauto.
Qed.

Lemma script_run_sound draw clicked s k :
  valid_draws draw -> sound s ->
  sound (snd (fst (script_run draw clicked s k)))
  /\ forall e, fst (fst (script_run draw clicked s k)) <> Failed e.
Proof.
  intros Hd (Hfb & Hscore & [[Hc Ho]|(cpd & o & Hc & Ho & Hcin & Hoin)]).
  - rewrite (script_run_undrawn draw clicked s k Ho).
    destruct (Hd k) as [Hdc Hdo].
    eapply script_run_sound_drawn; simpl; eauto.
  - eapply script_run_sound_drawn; eauto.
Qed.

(** X14.  The script never fails.  Whatever is clicked in whatever run,
    every session reached from the initial one keeps the feedback text
    empty unless the flag is set, a non-negative score, and a trial that
    is undrawn or drawn from the option lists; and the next run, with any
    click, completes or reruns: the [KeyError] of [check_answer] and a
    patch for an undrawn trial cannot occur. *)
Theorem script_never_fails :
  forall (draw : nat -> Z * Z) (clicks : list (option button))
         (clicked : option button),
    valid_draws draw ->
    let reached := runs draw clicks initial_session 0 in
    sound (fst reached)
    /\ forall e,
        fst (fst (script_run draw clicked (fst reached) (snd reached)))
        <> Failed e.
Proof.
  intros draw clicks clicked Hd. cbv zeta.
  assert (Hreach : forall s k, sound s -> sound (fst (runs draw clicks s k))).
  { induction clicks as [|c rest IH]; intros s k Hs; [exact Hs|].
    cbn [runs].
    pose proof (script_run_sound draw c s k Hd Hs) as [Hs' _].
    destruct (script_run draw c s k) as [[r s'] k']. apply IH. exact Hs'. }
  assert (Hinit : sound initial_session).
  { split; [easy|]. split; [simpl; lia|]. left. easy. }
  split; [apply Hreach, Hinit|].
  apply script_run_sound; [exact Hd|]. apply Hreach, Hinit.
Qed.

Lemma script_never_fails_witness :
  sound (fst (runs example_draw
                [None; Some DiagonalButton; Some VerticalButton; None]
                initial_session 0)).
Proof.
  assert (Hd : valid_draws example_draw).
  { intros k. unfold example_draw.
    destruct (Nat.even k); simpl; split; set_solver. }
  apply (script_never_fails example_draw
           [None; Some DiagonalButton; Some VerticalButton; None] None Hd).
Defined.

(** * Further properties of the patch *)

Lemma gaussian_sample_Some (i j : nat) (g : R) :
  Np.sample Gabor.gaussian i j = Some g ->
  (i < 512)%nat /\ (j < 512)%nat /\
  g = exp (- (grid_coordinate j ^ 2 + grid_coordinate i ^ 2)
           / (2 * Gabor.sigma_degrees ^ 2)).
Proof. rewrite gaussian_table. apply sample_table_Some. Qed.

Lemma gaussian_sample (i j : nat) :
  (i < 512)%nat -> (j < 512)%nat ->
  Np.sample Gabor.gaussian i j
  = Some (exp (- (grid_coordinate j ^ 2 + grid_coordinate i ^ 2)
               / (2 * Gabor.sigma_degrees ^ 2))).
Proof. intros Hi Hj. rewrite gaussian_table. now apply sample_table. Qed.

Lemma grid_coordinate_255 : grid_coordinate 255 = - (4 / 511).
Proof.
  unfold grid_coordinate. rewrite (INR_num 255 255) by reflexivity. lra.
Qed.

(** No grid point is at the origin: the coordinates nearest to it are
    -4/511 and 4/511. *)
Lemma grid_coordinate_sq_min (k : nat) :
  (4 / 511) ^ 2 <= grid_coordinate k ^ 2.
Proof.
  unfold grid_coordinate. rewrite INR_IZR_INZ.
  set (z := (2 * Z.of_nat k - 511)%Z).
  assert (Hz : (1 <= z * z)%Z).
  { assert (Hodd : (z <= -1 \/ 1 <= z)%Z) by (unfold z; lia).
    destruct Hodd; nia. }
  apply IZR_le in Hz. rewrite mult_IZR in Hz.
  assert (Hk : IZR (Z.of_nat k) = (IZR z + 511) / 2).
  { unfold z. rewrite minus_IZR, mult_IZR. lra. }
  rewrite Hk. nra.
Qed.

Lemma exp_monotone (a b : R) : a <= b -> exp a <= exp b.
Proof.
  intros [Hlt| ->]; [left; now apply exp_increasing | lra].
Qed.

Lemma grid_coordinate_sq_off_centre (k : nat) :
  k <> 255%nat -> k <> 256%nat -> (12 / 511) ^ 2 <= grid_coordinate k ^ 2.
Proof.
  intros H255 H256. unfold grid_coordinate. rewrite INR_IZR_INZ.
  set (z := (2 * Z.of_nat k - 511)%Z).
  assert (Hz : (9 <= z * z)%Z).
  { assert (Hodd : (z <= -3 \/ 3 <= z)%Z) by (unfold z; lia).
    destruct Hodd; nia. }
  apply IZR_le in Hz. rewrite mult_IZR in Hz.
  assert (Hk : IZR (Z.of_nat k) = (IZR z + 511) / 2).
  { unfold z. rewrite minus_IZR, mult_IZR. lra. }
  rewrite Hk. nra.
Qed.

Lemma exp_upper t : 0 <= t -> exp (- t) <= / (1 + t).
Proof.
  intros Ht. rewrite exp_Ropp.
  apply Rinv_le_contravar; [lra|]. apply exp_ineq1_le.
Qed.

Lemma envelope_centre :
  0.9999 < exp (- ((4 / 511) ^ 2 + (4 / 511) ^ 2) / (2 * 1.2 ^ 2)).
Proof.
  set (t := ((4 / 511) ^ 2 + (4 / 511) ^ 2) / (2 * 1.2 ^ 2)).
  replace (- ((4 / 511) ^ 2 + (4 / 511) ^ 2) / (2 * 1.2 ^ 2)) with (- t)
    by (unfold t; lra).
  pose proof (exp_lower t). assert (t < 0.0001) by (unfold t; lra). lra.
Qed.

Lemma envelope_off_centre (a b : R) :
  (12 / 511) ^ 2 <= a ^ 2 -> (4 / 511) ^ 2 <= b ^ 2 ->
  exp (- (a ^ 2 + b ^ 2) / (2 * 1.2 ^ 2)) < 0.9998.
Proof.
  intros Ha Hb.
  set (t0 := ((12 / 511) ^ 2 + (4 / 511) ^ 2) / (2 * 1.2 ^ 2)).
  apply Rle_lt_trans with (exp (- t0)).
  - apply exp_monotone. unfold t0. lra.
  - apply Rle_lt_trans with (/ (1 + t0)); [apply exp_upper; unfold t0; lra|].
    assert (Ht0 : 0.000212 < t0) by (unfold t0; lra).
    apply Rlt_le_trans with (/ 1.000212).
    + apply Rinv_lt_contravar; lra.
    + lra.
Qed.

(** X18.  The envelope.  Every sample of the Gaussian envelope lies
    strictly between 0 and 1; the four samples around the centre (rows
    and columns 255 and 256) are above 0.9999 and every other sample is
    below 0.9998: with an even number of samples none is at the peak
    itself. *)
Theorem gaussian_envelope_peak :
  forall (i j : nat) (g : R),
    Np.sample Gabor.gaussian i j = Some g ->
    0 < g < 1
    /\ ((i = 255 \/ i = 256)%nat /\ (j = 255 \/ j = 256)%nat -> 0.9999 < g)
    /\ (~ ((i = 255 \/ i = 256)%nat /\ (j = 255 \/ j = 256)%nat)
        -> g < 0.9998).
Proof.
  intros i j g H. apply gaussian_sample_Some in H as (_ & _ & ->).
  unfold Gabor.sigma_degrees.
  pose proof (grid_coordinate_sq_min i) as Hi.
  pose proof (grid_coordinate_sq_min j) as Hj.
  assert (Hsq : (- (4 / 511)) ^ 2 = (4 / 511) ^ 2) by ring.
  split; [|split].
  - split; [apply exp_pos|].
    rewrite <- exp_0. apply exp_increasing. lra.
  - intros [Hci Hcj].
    assert (Ei : grid_coordinate i ^ 2 = (4 / 511) ^ 2).
    { destruct Hci as [-> | ->];
        [rewrite grid_coordinate_255 | rewrite grid_coordinate_256]; lra. }
    assert (Ej : grid_coordinate j ^ 2 = (4 / 511) ^ 2).
    { destruct Hcj as [-> | ->];
        [rewrite grid_coordinate_255 | rewrite grid_coordinate_256]; lra. }
    rewrite Ei, Ej. exact envelope_centre.
  - intros Hoff.
    assert (Hcase : (i <> 255 /\ i <> 256)%nat \/ (j <> 255 /\ j <> 256)%nat)
      by lia.
    destruct Hcase as [[H1 H2]|[H1 H2]].
    + rewrite Rplus_comm.
      apply envelope_off_centre;
        [now apply grid_coordinate_sq_off_centre | exact Hj].
    + apply envelope_off_centre;
        [now apply grid_coordinate_sq_off_centre | exact Hi].
Qed.

Lemma gaussian_envelope_peak_witness :
  exists g : R,
    Np.sample Gabor.gaussian 255 256 = Some g /\ 0 < g < 1 /\ 0.9999 < g.
Proof.
  eexists. split; [apply gaussian_sample; lia|].
  destruct (gaussian_envelope_peak 255 256 _
              (gaussian_sample 255 256 ltac:(lia) ltac:(lia)))
    as (Hg & Hc & _).
  split; [exact Hg|]. apply Hc. split; [left|right]; reflexivity.
Defined.

(** X19.  No saturation in the game's range.  For a contrast in
    [0, 0.5] every sample of the patch lies strictly between 0 and 1:
    the envelope is below 1 at every grid point, so pure black and pure
    white are never reached, not even at the initial contrast 0.5. *)
Theorem generate_gabor_never_saturates :
  forall (cpd orientation_deg contrast : R),
    0 <= contrast <= 0.5 ->
    Forall (Forall (fun v => 0 < v < 1))
           (generate_gabor cpd orientation_deg contrast).
Proof.
  intros f o c [Hc0 Hc1]. rewrite generate_gabor_table.
  apply table_Forall; intros i j.
  unfold luminance; cbv zeta.
  set (s := sin _).
  assert (Hs : -1 <= s <= 1) by apply SIN_bound.
  assert (Hg : 0 < exp (- (grid_coordinate j ^ 2 + grid_coordinate i ^ 2)
                        / (2 * 1.2 ^ 2)) < 1).
  { split; [apply exp_pos|]. rewrite <- exp_0. apply exp_increasing.
    pose proof (grid_coordinate_sq_min i). pose proof (grid_coordinate_sq_min j).
    lra. }
  set (g := exp _) in *.
  assert (Hsg : -1 < s * g < 1) by (split; nra).
  replace (0.5 + c * s * g) with (0.5 + c * (s * g)) by ring.
  split; nra.
Qed.

Lemma generate_gabor_never_saturates_witness :
  Forall (Forall (fun v => 0 < v < 1)) (generate_gabor 18 45 0.5).
Proof. apply (generate_gabor_never_saturates 18 45 0.5). lra. Defined.

(** X20.  The coordinate grids.  The axis [x] (and [y], the same array)
    has 512 coordinates, the first -4 and the last 4, all within [-4, 4]
    and strictly increasing; [X] repeats the axis along every row and [Y]
    along every column: [X[i][j] = x[j]] and [Y[i][j] = y[i]], so rows are
    lines of constant y and columns lines of constant x. *)
Theorem coordinate_grids :
  forall i j : nat,
    (i < 512)%nat -> (j < 512)%nat ->
    length Gabor.x = 512%nat
    /\ Gabor.y = Gabor.x
    /\ Gabor.x !! 0%nat = Some (-4)
    /\ Gabor.x !! 511%nat = Some 4
    /\ (exists a : R,
          Gabor.x !! j = Some a /\ -4 <= a <= 4
          /\ forall b : R, Gabor.x !! (S j) = Some b -> a < b)
    /\ Np.sample Gabor.X i j = Gabor.x !! j
    /\ Np.sample Gabor.Y i j = Gabor.y !! i.
Proof.
  intros i j Hi Hj.
  assert (Hx : forall k, (k < 512)%nat ->
                Gabor.x !! k = Some (grid_coordinate k)).
  { intros k Hk. rewrite x_coordinates, lookup_map.
    now rewrite lookup_seq_lt by exact Hk. }
  split; [rewrite x_coordinates; now rewrite length_map, length_seq|].
  split; [reflexivity|].
  split; [rewrite Hx by lia; now rewrite grid_coordinate_0|].
  split.
  { rewrite Hx by lia. f_equal. unfold grid_coordinate.
    rewrite (INR_num 511 511) by reflexivity. lra. }
  split.
  { exists (grid_coordinate j). split; [now apply Hx|].
    split; [now apply grid_coordinate_range|].
    intros b Hb.
    destruct (decide (j = 511%nat)) as [->|Hne].
    - rewrite x_coordinates, lookup_map in Hb.
      rewrite lookup_seq_ge in Hb by (unfold Gabor.size_pixels; lia).
      discriminate.
    - rewrite Hx in Hb by lia. injection Hb as <-.
      unfold grid_coordinate. rewrite S_INR. lra. }
  split.
  - rewrite X_table, sample_table, Hx by assumption. reflexivity.
  - unfold Gabor.y. rewrite Y_table, sample_table, Hx by assumption.
    reflexivity.
Qed.

Lemma coordinate_grids_witness :
  Np.sample Gabor.X 3 7 = Gabor.x !! 7%nat
  /\ Np.sample Gabor.Y 3 7 = Gabor.y !! 3%nat.
Proof.
  destruct (coordinate_grids 3 7 ltac:(lia) ltac:(lia))
    as (_ & _ & _ & _ & _ & HX & HY).
  split; assumption.
Defined.
